(** * Coffee Roulette: the grouping core of [cr_streamlit.py] and [dash_app.py]

    The development embeds the three helper functions that both front-ends
    define ([get_next_group_column_name], [get_past_pairings] and
    [create_groups_intelligently]) and proves the properties the
    specification states about them.

    Conventions of the embedding:
    - Python [str] is [string]; column names are ASCII, so that
      [str.isdigit] and [int] are modelled on the characters '0'..'9' only
      (digits of other scripts are outside the embedding);
    - Python [int] is [N] or [Z] (unbounded);
    - a Python [dict] from names to [set]s of names is a
      [gmap string (gset string)];
    - a Python exception is the [Raise] case of [outcome];
    - [random.shuffle] is the Fisher-Yates loop of CPython's [random] module
      over an explicit sequence of raw draws. *)

From Stdlib Require Import ZArith NArith Ascii String DecimalString DecimalN.
From stdpp Require Import gmap strings list fin_maps.

Local Open Scope string_scope.
Local Open Scope list_scope.

(** ** Exceptions and the result of a computation *)

Inductive exn : Type :=
  | KeyError (key : string)
  | IndexError
  | ValueError
  | UnboundLocalError (variable : string).

Inductive outcome (A : Type) : Type :=
  | Ok (a : A)
  | Raise (e : exn)
  | OutOfFuel.
Arguments Ok {A} a.
Arguments Raise {A} e.
Arguments OutOfFuel {A}.

(** The sequencing of statements: an exception or an exhausted loop budget
    ends the computation. *)
#[global] Instance outcome_bind : MBind outcome := fun A B k c =>
  match c with
  | Ok a => k a
  | Raise e => Raise e
  | OutOfFuel => OutOfFuel
  end.
#[global] Instance outcome_ret : MRet outcome := fun A a => Ok a.

(** ** Python built-ins used by the helpers *)

Module Py.

(** [c in '0123456789'] *)
Definition is_digit_char (c : ascii) : bool :=
  let n := nat_of_ascii c in (48 <=? n)%nat && (n <=? 57)%nat.

Fixpoint all_digits (s : string) : bool :=
  match s with
  | EmptyString => true
  | String c s' => is_digit_char c && all_digits s'
  end.

(** [s.isdigit()]: false on the empty string. *)
Definition isdigit (s : string) : bool :=
  match s with
  | EmptyString => false
  | String _ _ => all_digits s
  end.

(** [s.startswith(p)] *)
Fixpoint startswith (s p : string) {struct p} : bool :=
  match p, s with
  | EmptyString, _ => true
  | String a p', String b s' => if Ascii.eqb a b then startswith s' p' else false
  | String _ _, EmptyString => false
  end.

(** [s[n:]] *)
Fixpoint slice_from (n : nat) (s : string) : string :=
  match n, s with
  | O, _ => s
  | S n', String _ s' => slice_from n' s'
  | S _, EmptyString => EmptyString
  end.

(** [s.split(sep)] for a one-character separator: the pieces between the
    separators, always at least one piece. *)
Fixpoint split (sep : ascii) (s : string) : list string :=
  match s with
  | EmptyString => [EmptyString]
  | String c s' =>
      if Ascii.eqb c sep then EmptyString :: split sep s'
      else match split sep s' with
           | piece :: pieces => String c piece :: pieces
           | [] => [String c EmptyString]
           end
  end.

(** [l[i]] *)
Definition getitem {A : Type} (l : list A) (i : nat) : outcome A :=
  match l !! i with
  | Some x => Ok x
  | None => Raise IndexError
  end.

(** [int(s)] on a string of decimal digits; anything else is a
    [ValueError] (the helpers only pass digit strings). *)
Definition int (s : string) : outcome N :=
  if isdigit s then
    match NilEmpty.uint_of_string s with
    | Some d => Ok (N.of_uint d)
    | None => Raise ValueError
    end
  else Raise ValueError.

(** [str(n)] for a non-negative integer. *)
Definition str (n : N) : string := NilEmpty.string_of_uint (N.to_uint n).

(** [max(l)] of a list of integers. *)
Definition max (l : list N) : outcome N :=
  match l with
  | [] => Raise ValueError
  | x :: l' => Ok (foldl N.max x l')
  end.

(** [l.pop(0)] *)
Definition pop0 {A : Type} (l : list A) : outcome (A * list A) :=
  match l with
  | [] => Raise IndexError
  | x :: l' => Ok (x, l')
  end.

(** [l.remove(x)]: drops the first occurrence, [ValueError] if there is
    none. *)
Fixpoint remove (x : string) (l : list string) : outcome (list string) :=
  match l with
  | [] => Raise ValueError
  | y :: l' =>
      if String.eqb y x then Ok l'
      else l'' ← remove x l'; Ok (y :: l'')
  end.

(** [enumerate(l)] *)
Fixpoint enumerate_from {A : Type} (k : nat) (l : list A) : list (nat * A) :=
  match l with
  | [] => []
  | x :: l' => (k, x) :: enumerate_from (S k) l'
  end.
Definition enumerate {A : Type} (l : list A) : list (nat * A) :=
  enumerate_from 0 l.

End Py.

(** ** The [random] module *)

Module Random.

(** The generator: the raw draws still to come. *)
Definition state : Type := list nat.

(** [randbelow(n)]: the next draw, reduced below [n]. *)
Definition randbelow (n : nat) (r : state) : nat * state :=
  match r with
  | [] => (0, [])
  | x :: r' => (Nat.modulo x n, r')
  end.

(** [x[i], x[j] = x[j], x[i]] *)
Definition swap {A : Type} (i j : nat) (x : list A) : list A :=
  match x !! i, x !! j with
  | Some a, Some b => <[j := a]> (<[i := b]> x)
  | _, _ => x
  end.

(** [for i in reversed(range(1, n + 1)): j = randbelow(i + 1); swap] *)
Fixpoint shuffle_from {A : Type} (i : nat) (x : list A) (r : state)
  : list A * state :=
  match i with
  | O => (x, r)
  | S i' =>
      let '(j, r) := randbelow (S i) r in
      shuffle_from i' (swap i j x) r
  end.

(** [random.shuffle(x)] *)
Definition shuffle {A : Type} (x : list A) (r : state) : list A * state :=
  shuffle_from (length x - 1) x r.

End Random.

(** ** The roster table *)

(** A cell of a round column: a group label, or a missing value. *)
Definition cell : Type := option string.

(** A validated roster (both front-ends reject a table without a [Name]
    column before they call the helpers): the [Name] column and, in header
    order, every other column with its values. Column names are unique, as
    in every table pandas reads from a CSV file, and the rows of a column
    are matched with the names by position. The place of [Name] among the
    columns plays no role in the helpers. *)
Record DataFrame : Type := mkDataFrame {
  Name : list string;
  other_columns : list (string * list cell)
}.

(** [df.columns] *)
Definition columns (df : DataFrame) : list string :=
  "Name" :: map fst (other_columns df).

(** [col.startswith('Group_') and col[6:].isdigit()] *)
Definition is_group_col (col : string) : bool :=
  Py.startswith col "Group_" && Py.isdigit (Py.slice_from 6 col).

(** [df[col]] for a column other than [Name]; pandas raises [KeyError] when
    the table has no such column. *)
Fixpoint column_lookup (col : string) (cols : list (string * list cell))
  : option (list cell) :=
  match cols with
  | [] => None
  | (c, values) :: cols' =>
      if String.eqb c col then Some values else column_lookup col cols'
  end.

Definition column_values (df : DataFrame) (col : string) : outcome (list cell) :=
  match column_lookup col (other_columns df) with
  | Some values => Ok values
  | None => Raise (KeyError col)
  end.

(** The keys of a [groupby]: the labels that occur, without the missing
    values, each once, in increasing order. *)
Fixpoint key_insert (k : string) (keys : list string) : list string :=
  match keys with
  | [] => [k]
  | k' :: keys' =>
      match String.compare k k' with
      | Lt => k :: keys
      | Eq => keys
      | Gt => k' :: key_insert k keys'
      end
  end.

Fixpoint group_keys (labels : list cell) : list string :=
  match labels with
  | [] => []
  | Some k :: labels' => key_insert k (group_keys labels')
  | None :: labels' => group_keys labels'
  end.

(** The names of the rows that carry label [k], in row order. *)
Fixpoint rows_with (k : string) (labels : list cell) (names : list string)
  : list string :=
  match labels, names with
  | l :: labels', n :: names' =>
      if decide (l = Some k) then n :: rows_with k labels' names'
      else rows_with k labels' names'
  | _, _ => []
  end.

(** [df.groupby(col)['Name'].apply(list).to_dict().items()]: reads the
    table and hands it back unchanged. *)
Definition groupby_names (col : string) (df : DataFrame)
  : outcome (list (string * list string) * DataFrame) :=
  labels ← column_values df col;
  Ok (map (fun k => (k, rows_with k labels (Name df))) (group_keys labels), df).

(** The pairing-avoidance mapping: a [dict] from a name to the [set] of the
    names it has shared a group with. *)
Abbreviation pairings := (gmap string (gset string)).

(** [d[k]] *)
Definition dict_getitem (d : pairings) (k : string) : outcome (gset string) :=
  match d !! k with
  | Some s => Ok s
  | None => Raise (KeyError k)
  end.

(** [d[p1].add(p2)]: the subscript is evaluated first. *)
Definition set_add (d : pairings) (p1 p2 : string) : outcome pairings :=
  s ← dict_getitem d p1;
  Ok (<[p1 := s ∪ {[p2]}]> d).

(** [df[['Name', 'Branch']].copy()]; pandas raises [KeyError] when the
    table has no [Branch] column. *)
Definition select_name_branch (df : DataFrame) : outcome DataFrame :=
  branch ← column_values df "Branch";
  Ok (mkDataFrame (Name df) [("Branch", branch)]).

(** [df[col] = values] for a column other than [Name]: a column of that
    name is overwritten where it stands, a new column is appended after
    the others. *)
Fixpoint assign_column (col : string) (values : list cell)
    (cols : list (string * list cell)) : list (string * list cell) :=
  match cols with
  | [] => [(col, values)]
  | (c, v) :: cols' =>
      if String.eqb c col then (c, values) :: cols'
      else (c, v) :: assign_column col values cols'
  end.

Definition set_column (col : string) (values : list cell) (df : DataFrame)
  : DataFrame :=
  mkDataFrame (Name df) (assign_column col values (other_columns df)).

(** [df['Name'].map(d)]: the value of [d] for each name, a missing value
    for a name that is not a key of [d]. *)
Definition map_names (d : gmap string string) (df : DataFrame) : list cell :=
  map (fun name => d !! name) (Name df).

(** A list comprehension [[f x for x in l]] whose body may raise. *)
Fixpoint comprehension {A B : Type} (f : A -> outcome B) (l : list A)
  : outcome (list B) :=
  match l with
  | [] => Ok []
  | x :: l' => y ← f x; ys ← comprehension f l'; Ok (y :: ys)
  end.

Module Streamlit.

(** [get_next_group_column_name], cr_streamlit.py lines 11-22. *)
Definition get_next_group_column_name (df : DataFrame) : outcome string :=
  let existing_group_cols :=
    filter (fun col => is_group_col col = true) (columns df) in
  match existing_group_cols with
  | [] => Ok "Group_1"
  | _ :: _ =>
      group_numbers ←
        comprehension
          (fun col => piece ← Py.getitem (Py.split "_" col) 1; Py.int piece)
          existing_group_cols;
      m ← Py.max group_numbers;
      let next_number := (m + 1)%N in
      Ok ("Group_" +:+ Py.str next_number)
  end.


(** The loop [for j, p2 in enumerate(members): if i != j: ...] of
    lines 44-46. *)
Fixpoint add_partners (i : nat) (p1 : string) (js : list (nat * string))
    (past_pairings : pairings) : outcome pairings :=
  match js with
  | [] => Ok past_pairings
  | (j, p2) :: js' =>
      if decide (i ≠ j) then
        past_pairings ← set_add past_pairings p1 p2;
        add_partners i p1 js' past_pairings
      else add_partners i p1 js' past_pairings
  end.

(** The loop [for i, p1 in enumerate(members)] of lines 41-46. *)
Fixpoint record_members (members : list string) (ips : list (nat * string))
    (past_pairings : pairings) : outcome pairings :=
  match ips with
  | [] => Ok past_pairings
  | (i, p1) :: ips' =>
      let past_pairings :=
        if decide (p1 ∉ dom past_pairings)
        then <[p1 := ∅]> past_pairings else past_pairings in
      past_pairings ← add_partners i p1 (Py.enumerate members) past_pairings;
      record_members members ips' past_pairings
  end.

(** The loop [for group_id, members in grouped_data.items()] of
    lines 39-46. *)
Fixpoint record_groups (grouped_data : list (string * list string))
    (past_pairings : pairings) : outcome pairings :=
  match grouped_data with
  | [] => Ok past_pairings
  | (group_id, members) :: grouped_data' =>
      if decide (1 < length members) then
        past_pairings ←
          record_members members (Py.enumerate members) past_pairings;
        record_groups grouped_data' past_pairings
      else record_groups grouped_data' past_pairings
  end.

(** The loop [for col in group_cols] of lines 36-46. *)
Fixpoint scan_columns (group_cols : list string) (past_pairings : pairings)
    (df : DataFrame) : outcome (pairings * DataFrame) :=
  match group_cols with
  | [] => Ok (past_pairings, df)
  | col :: group_cols' =>
      '(grouped_data, df) ← groupby_names col df;
      past_pairings ← record_groups grouped_data past_pairings;
      scan_columns group_cols' past_pairings df
  end.

(** [get_past_pairings], cr_streamlit.py lines 24-47. The result comes
    with the table as the call leaves it. *)
Definition get_past_pairings (df : DataFrame)
  : outcome (pairings * DataFrame) :=
  let past_pairings : pairings := ∅ in
  let group_cols := filter (fun col => is_group_col col = true) (columns df) in
  match group_cols with
  | [] => Ok (past_pairings, df)
  | _ :: _ => scan_columns group_cols past_pairings df
  end.

(** [person1 not in past_pairings or p not in past_pairings[person1]],
    line 79. *)
Definition is_candidate (past_pairings : pairings) (person1 p : string)
  : outcome bool :=
  if decide (person1 ∉ dom past_pairings) then Ok true
  else s ← dict_getitem past_pairings person1; Ok (bool_decide (p ∉ s)).

(** The loop of lines 76-80 that collects [candidates_for_group]. *)
Fixpoint candidates_for (past_pairings : pairings) (person1 : string)
    (available_participants : list string) : outcome (list string) :=
  match available_participants with
  | [] => Ok []
  | p :: rest =>
      c ← is_candidate past_pairings person1 p;
      cs ← candidates_for past_pairings person1 rest;
      Ok (if (c : bool) then p :: cs else cs)
  end.

(** The fallback loop of lines 85-87, [n] rounds. *)
Fixpoint fill_from_available (n : nat) (group available_participants : list string)
  : outcome (list string * list string) :=
  match n with
  | O => Ok (group, available_participants)
  | S n' =>
      match available_participants with
      | [] => fill_from_available n' group available_participants
      | _ :: _ =>
          '(p, available_participants) ← Py.pop0 available_participants;
          fill_from_available n' (group ++ [p]) available_participants
      end
  end.

(** The loop of lines 91-96 over the shuffled candidates, [n] rounds. *)
Fixpoint fill_from_candidates (n : nat)
    (group candidates_for_group available_participants : list string)
  : outcome (list string * list string) :=
  match n with
  | O => Ok (group, available_participants)
  | S n' =>
      match candidates_for_group with
      | [] =>
          fill_from_candidates n' group candidates_for_group
            available_participants
      | _ :: _ =>
          '(p_to_add, candidates_for_group) ← Py.pop0 candidates_for_group;
          available_participants ← Py.remove p_to_add available_participants;
          fill_from_candidates n' (group ++ [p_to_add]) candidates_for_group
            available_participants
      end
  end.

(** The test of line 83: true when the fallback branch is taken. *)
Definition too_few_candidates (candidates_for_group : list string)
    (group_size : Z) : bool :=
  bool_decide (Z.of_nat (length candidates_for_group) < group_size - 1)%Z.

(** One iteration of the [while] loop, lines 67-98: the group it forms,
    the participants still available and the generator. *)
Definition form_group (past_pairings : pairings) (group_size : Z)
    (available_participants : list string) (r : Random.state)
  : outcome (list string * list string * Random.state) :=
  '(person1, available_participants) ← Py.pop0 available_participants;
  let group := [person1] in
  candidates_for_group ←
    candidates_for past_pairings person1 available_participants;
  if too_few_candidates candidates_for_group group_size then
    '(group, available_participants) ←
      fill_from_available (Z.to_nat (group_size - 1)) group
        available_participants;
    Ok (group, available_participants, r)
  else
    let '(candidates_for_group, r) := Random.shuffle candidates_for_group r in
    '(group, available_participants) ←
      fill_from_candidates (Z.to_nat (group_size - 1)) group
        candidates_for_group available_participants;
    Ok (group, available_participants, r).

(** The [while] loop of lines 66-98, with a bound on the number of
    iterations. *)
Fixpoint while_available (fuel : nat) (past_pairings : pairings)
    (group_size : Z) (available_participants : list string)
    (groups : list (list string)) (r : Random.state)
  : outcome (list string * list (list string) * Random.state) :=
  if bool_decide (Z.of_nat (length available_participants) >= group_size)%Z then
    match fuel with
    | O => OutOfFuel
    | S fuel' =>
        '(group, available_participants, r) ←
          form_group past_pairings group_size available_participants r;
        while_available fuel' past_pairings group_size available_participants
          (groups ++ [group]) r
    end
  else Ok (available_participants, groups, r).

(** The remainder handling of lines 100-111. *)
Definition handle_remainders (available_participants : list string)
    (groups : list (list string)) : list (list string) :=
  match available_participants with
  | [] => groups
  | _ :: _ =>
      if decide (length available_participants = 1) then
        match groups with
        | first :: others => (first ++ available_participants) :: others
        | [] => groups ++ [available_participants]
        end
      else if decide (length available_participants = 2) then
        groups ++ [available_participants]
      else groups
  end.

(** [create_groups_intelligently], cr_streamlit.py lines 49-113. *)
Definition create_groups_intelligently (fuel : nat)
    (participants_df : DataFrame) (past_pairings : pairings)
    (group_size : Z) (r : Random.state) : outcome (list (list string)) :=
  let participants := Name participants_df in
  let '(participants, r) := Random.shuffle participants r in
  let groups : list (list string) := [] in
  let available_participants := participants in
  '(available_participants, groups, r) ←
    while_available fuel past_pairings group_size available_participants
      groups r;
  Ok (handle_remainders available_participants groups).

(** [GROUP_SIZE], line 7. *)
Definition GROUP_SIZE : Z := 3.

(** The loop [for person in group] of lines 194-195. *)
Fixpoint label_members (group : list string) (label : string)
    (participant_to_group_id : gmap string string) : gmap string string :=
  match group with
  | [] => participant_to_group_id
  | person :: group' =>
      label_members group' label (<[person := label]> participant_to_group_id)
  end.

(** The loop [for group in new_groups] of lines 193-196. *)
Fixpoint label_groups (new_groups : list (list string)) (group_id_counter : N)
    (participant_to_group_id : gmap string string) : gmap string string :=
  match new_groups with
  | [] => participant_to_group_id
  | group :: new_groups' =>
      label_groups new_groups' (group_id_counter + 1)
        (label_members group ("Group " +:+ Py.str group_id_counter)
           participant_to_group_id)
  end.

(** The body of the [Generate Coffee Groups] handler, lines 182-199: the
    table with its new column, and the name of that column. *)
Definition generate_groups (fuel : nat) (df : DataFrame) (r : Random.state)
  : outcome (DataFrame * string) :=
  participants_df ← select_name_branch df;
  '(past_pairings, df) ← get_past_pairings df;
  new_groups ←
    create_groups_intelligently fuel participants_df past_pairings GROUP_SIZE r;
  next_group_col ← get_next_group_column_name df;
  let participant_to_group_id := label_groups new_groups 1 ∅ in
  Ok (set_column next_group_col (map_names participant_to_group_id df) df,
      next_group_col).

(** [file_name] of the download button, line 239. *)
Definition download_file_name (next_group_col : string) : string :=
  "coffee_roulette_groups_" +:+ next_group_col +:+ ".csv".

End Streamlit.

Module Dash.

(** [get_next_group_column_name], dash_app.py lines 16-27. *)
Definition get_next_group_column_name (df : DataFrame) : outcome string :=
  let existing_group_cols :=
    filter (fun col => is_group_col col = true) (columns df) in
  match existing_group_cols with
  | [] => Ok "Group_1"
  | _ :: _ =>
      group_numbers ←
        comprehension
          (fun col => piece ← Py.getitem (Py.split "_" col) 1; Py.int piece)
          existing_group_cols;
      m ← Py.max group_numbers;
      let next_number := (m + 1)%N in
      Ok ("Group_" +:+ Py.str next_number)
  end.


(** [past_pairings[p1].add(p2)] where [p2] is the function's local
    variable, which is unbound until the inner loop has run once. *)
Definition set_add_local (past_pairings : pairings) (p1 : string)
    (p2 : option string) : outcome pairings :=
  s ← dict_getitem past_pairings p1;
  match p2 with
  | Some p2 => Ok (<[p1 := s ∪ {[p2]}]> past_pairings)
  | None => Raise (UnboundLocalError "p2")
  end.

(** The loop [for j, p2 in enumerate(members): if i != j: ...] of
    lines 49-51; it leaves the last value of [p2] behind. *)
Fixpoint add_partners (i : nat) (p1 : string) (js : list (nat * string))
    (past_pairings : pairings) (p2 : option string)
  : outcome (pairings * option string) :=
  match js with
  | [] => Ok (past_pairings, p2)
  | (j, p2) :: js' =>
      if decide (i ≠ j) then
        past_pairings ← set_add past_pairings p1 p2;
        add_partners i p1 js' past_pairings (Some p2)
      else add_partners i p1 js' past_pairings (Some p2)
  end.

(** The loop [for i, p1 in enumerate(members)] of lines 46-51. *)
Fixpoint record_members (members : list string) (ips : list (nat * string))
    (past_pairings : pairings) (p2 : option string)
  : outcome (pairings * option string) :=
  match ips with
  | [] => Ok (past_pairings, p2)
  | (i, p1) :: ips' =>
      past_pairings ←
        (if decide (p1 ∉ dom past_pairings)
         then set_add_local past_pairings p1 p2 else Ok past_pairings);
      '(past_pairings, p2) ←
        add_partners i p1 (Py.enumerate members) past_pairings p2;
      record_members members ips' past_pairings p2
  end.

(** The loop [for group_id, members in grouped_data.items()] of
    lines 44-51. *)
Fixpoint record_groups (grouped_data : list (string * list string))
    (past_pairings : pairings) (p2 : option string)
  : outcome (pairings * option string) :=
  match grouped_data with
  | [] => Ok (past_pairings, p2)
  | (group_id, members) :: grouped_data' =>
      if decide (1 < length members) then
        '(past_pairings, p2) ←
          record_members members (Py.enumerate members) past_pairings p2;
        record_groups grouped_data' past_pairings p2
      else record_groups grouped_data' past_pairings p2
  end.

(** The loop [for col in group_cols] of lines 41-51. *)
Fixpoint scan_columns (group_cols : list string) (past_pairings : pairings)
    (p2 : option string) (df : DataFrame) : outcome (pairings * DataFrame) :=
  match group_cols with
  | [] => Ok (past_pairings, df)
  | col :: group_cols' =>
      '(grouped_data, df) ← groupby_names col df;
      '(past_pairings, p2) ← record_groups grouped_data past_pairings p2;
      scan_columns group_cols' past_pairings p2 df
  end.

(** [get_past_pairings], dash_app.py lines 29-52. *)
Definition get_past_pairings (df : DataFrame)
  : outcome (pairings * DataFrame) :=
  let past_pairings : pairings := ∅ in
  let group_cols := filter (fun col => is_group_col col = true) (columns df) in
  match group_cols with
  | [] => Ok (past_pairings, df)
  | _ :: _ => scan_columns group_cols past_pairings None df
  end.


(** [person1 not in past_pairings or p not in past_pairings[person1]],
    line 71. *)
Definition is_candidate (past_pairings : pairings) (person1 p : string)
  : outcome bool :=
  if decide (person1 ∉ dom past_pairings) then Ok true
  else s ← dict_getitem past_pairings person1; Ok (bool_decide (p ∉ s)).

(** The loop of lines 69-72 that collects [candidates_for_group]. *)
Fixpoint candidates_for (past_pairings : pairings) (person1 : string)
    (available_participants : list string) : outcome (list string) :=
  match available_participants with
  | [] => Ok []
  | p :: rest =>
      c ← is_candidate past_pairings person1 p;
      cs ← candidates_for past_pairings person1 rest;
      Ok (if (c : bool) then p :: cs else cs)
  end.

(** The fallback loop of lines 75-77, [n] rounds. *)
Fixpoint fill_from_available (n : nat) (group available_participants : list string)
  : outcome (list string * list string) :=
  match n with
  | O => Ok (group, available_participants)
  | S n' =>
      match available_participants with
      | [] => fill_from_available n' group available_participants
      | _ :: _ =>
          '(p, available_participants) ← Py.pop0 available_participants;
          fill_from_available n' (group ++ [p]) available_participants
      end
  end.

(** The loop of lines 80-84 over the shuffled candidates, [n] rounds. *)
Fixpoint fill_from_candidates (n : nat)
    (group candidates_for_group available_participants : list string)
  : outcome (list string * list string) :=
  match n with
  | O => Ok (group, available_participants)
  | S n' =>
      match candidates_for_group with
      | [] =>
          fill_from_candidates n' group candidates_for_group
            available_participants
      | _ :: _ =>
          '(p_to_add, candidates_for_group) ← Py.pop0 candidates_for_group;
          available_participants ← Py.remove p_to_add available_participants;
          fill_from_candidates n' (group ++ [p_to_add]) candidates_for_group
            available_participants
      end
  end.

(** The test of line 74: true when the fallback branch is taken. *)
Definition too_few_candidates (candidates_for_group : list string)
    (group_size : Z) : bool :=
  bool_decide (Z.of_nat (length candidates_for_group) < group_size - 1)%Z.

(** One iteration of the [while] loop, lines 65-86: the group it forms,
    the participants still available and the generator. *)
Definition form_group (past_pairings : pairings) (group_size : Z)
    (available_participants : list string) (r : Random.state)
  : outcome (list string * list string * Random.state) :=
  '(person1, available_participants) ← Py.pop0 available_participants;
  let group := [person1] in
  candidates_for_group ←
    candidates_for past_pairings person1 available_participants;
  if too_few_candidates candidates_for_group group_size then
    '(group, available_participants) ←
      fill_from_available (Z.to_nat (group_size - 1)) group
        available_participants;
    Ok (group, available_participants, r)
  else
    let '(candidates_for_group, r) := Random.shuffle candidates_for_group r in
    '(group, available_participants) ←
      fill_from_candidates (Z.to_nat (group_size - 1)) group
        candidates_for_group available_participants;
    Ok (group, available_participants, r).

(** The [while] loop of lines 64-86, with a bound on the number of
    iterations. *)
Fixpoint while_available (fuel : nat) (past_pairings : pairings)
    (group_size : Z) (available_participants : list string)
    (groups : list (list string)) (r : Random.state)
  : outcome (list string * list (list string) * Random.state) :=
  if bool_decide (Z.of_nat (length available_participants) >= group_size)%Z then
    match fuel with
    | O => OutOfFuel
    | S fuel' =>
        '(group, available_participants, r) ←
          form_group past_pairings group_size available_participants r;
        while_available fuel' past_pairings group_size available_participants
          (groups ++ [group]) r
    end
  else Ok (available_participants, groups, r).

(** The remainder handling of lines 88-96. *)
Definition handle_remainders (available_participants : list string)
    (groups : list (list string)) : list (list string) :=
  match available_participants with
  | [] => groups
  | _ :: _ =>
      if decide (length available_participants = 1) then
        match groups with
        | first :: others => (first ++ available_participants) :: others
        | [] => groups ++ [available_participants]
        end
      else if decide (length available_participants = 2) then
        groups ++ [available_participants]
      else groups
  end.

(** [create_groups_intelligently], dash_app.py lines 54-98. *)
Definition create_groups_intelligently (fuel : nat)
    (participants_df : DataFrame) (past_pairings : pairings)
    (group_size : Z) (r : Random.state) : outcome (list (list string)) :=
  let participants := Name participants_df in
  let '(participants, r) := Random.shuffle participants r in
  let groups : list (list string) := [] in
  let available_participants := participants in
  '(available_participants, groups, r) ←
    while_available fuel past_pairings group_size available_participants
      groups r;
  Ok (handle_remainders available_participants groups).

(** [GROUP_SIZE], line 12. *)
Definition GROUP_SIZE : Z := 3.

(** The loop [for person in group] of lines 323-324. *)
Fixpoint label_members (group : list string) (label : string)
    (participant_to_group_id : gmap string string) : gmap string string :=
  match group with
  | [] => participant_to_group_id
  | person :: group' =>
      label_members group' label (<[person := label]> participant_to_group_id)
  end.

(** The loop [for group in new_groups] of lines 322-325. *)
Fixpoint label_groups (new_groups : list (list string)) (group_id_counter : N)
    (participant_to_group_id : gmap string string) : gmap string string :=
  match new_groups with
  | [] => participant_to_group_id
  | group :: new_groups' =>
      label_groups new_groups' (group_id_counter + 1)
        (label_members group ("Group " +:+ Py.str group_id_counter)
           participant_to_group_id)
  end.

(** The [grouped-df-json] output of the callback [generate_groups],
    lines 310-329 and 354: the table with its new column, or no update.
    A store is modelled by the table that [to_json] and [read_json] carry
    through it, [None] for an empty store. *)
Definition generate_groups (fuel : nat) (n_clicks : Z)
    (uploaded_df_json : option DataFrame) (r : Random.state)
  : outcome (option DataFrame) :=
  match bool_decide (n_clicks > 0)%Z, uploaded_df_json with
  | true, Some df =>
      participants_df ← select_name_branch df;
      '(past_pairings, df) ← get_past_pairings df;
      new_groups ←
        create_groups_intelligently fuel participants_df past_pairings
          GROUP_SIZE r;
      next_group_col ← get_next_group_column_name df;
      let participant_to_group_id := label_groups new_groups 1 ∅ in
      Ok (Some (set_column next_group_col
                  (map_names participant_to_group_id df) df))
  | _, _ => Ok None
  end.

(** The file name that the callback [download_csv] gives to the download,
    lines 366-377, or no update. *)
Definition download_csv (n_clicks : Z) (grouped_df_json : option DataFrame)
  : outcome (option string) :=
  match bool_decide (n_clicks > 0)%Z, grouped_df_json with
  | true, Some df =>
      next_group_col ← get_next_group_column_name df;
      Ok (Some ("coffee_roulette_groups_" +:+ next_group_col +:+ ".csv"))
  | _, _ => Ok None
  end.

End Dash.

(** The demonstration roster of both front-ends. *)
Definition mock_df : DataFrame :=
  mkDataFrame
    ["Alice"; "Bob"; "Charlie"; "David"; "Eve"; "Frank"; "Grace"; "Heidi";
     "Ivan"; "Judy"; "Kelly"]
    [("Branch", map Some ["HR"; "IT"; "Finance"; "HR"; "IT"; "Finance"; "HR";
                          "IT"; "Finance"; "HR"; "IT"]);
     ("Group_1", map Some ["A"; "A"; "A"; "B"; "B"; "B"; "C"; "C"; "C"; "D"; "D"]);
     ("Group_2", map Some ["X"; "Y"; "Z"; "X"; "Y"; "Z"; "X"; "Y"; "Z"; "X"; "Y"])].

(** ** Vocabulary of the specification *)

(** [col] is a round column numbered [n]: the prefix [Group_] followed by a
    purely numeric suffix whose value is [n]. *)
Definition round_column (col : string) (n : N) : Prop :=
  exists suffix, col = "Group_" +:+ suffix /\ Py.int suffix = Ok n.

(** The table has a round column numbered [n]. *)
Definition has_round (df : DataFrame) (n : N) : Prop :=
  exists col, col ∈ columns df /\ round_column col n.

(** [m] is the largest round number of the table. *)
Definition max_round (df : DataFrame) (m : N) : Prop :=
  has_round df m /\ forall n, has_round df n -> (n <= m)%N.

(** A column whose name starts with the prefix but whose suffix is not
    purely numeric. *)
Definition prefix_only (col : string) : Prop :=
  Py.startswith col "Group_" = true /\ Py.isdigit (Py.slice_from 6 col) = false.

(** [b] is in the set that the mapping holds for [a]. *)
Definition paired (m : pairings) (a b : string) : Prop :=
  exists s, m !! a = Some s /\ b ∈ s.

(** The list [l] holds [a] and [b] at two different positions. *)
Definition at_distinct (l : list string) (a b : string) : Prop :=
  exists i j, i <> j /\ l !! i = Some a /\ l !! j = Some b.

(** Two different rows, named [a] and [b], both carry the label [k]. *)
Definition rows_share (k : string) (labels : list cell) (names : list string)
    (a b : string) : Prop :=
  exists r1 r2,
    r1 <> r2 /\
    labels !! r1 = Some (Some k) /\ labels !! r2 = Some (Some k) /\
    names !! r1 = Some a /\ names !! r2 = Some b.

(** Two different rows of the table, named [a] and [b], carry the same
    label in some round column. *)
Definition shared_round (df : DataFrame) (a b : string) : Prop :=
  exists col n labels k,
    round_column col n /\
    column_lookup col (other_columns df) = Some labels /\
    rows_share k labels (Name df) a b.

(** Every key of the mapping has at least one partner. *)
Definition keys_paired (m : pairings) : Prop :=
  forall a, is_Some (m !! a) -> exists b, paired m a b.

(** Two calls of the extractor in a row, the second on the table as the
    first one left it. *)
Definition extract_twice (df : DataFrame)
  : outcome (pairings * pairings * DataFrame) :=
  '(first, df) ← Streamlit.get_past_pairings df;
  '(second, df) ← Streamlit.get_past_pairings df;
  Ok (first, second, df).

(** A roster with one round column [col] that groups A, B, C under the
    label [x] and D, E under the label [y]. *)
Definition one_round_df (col x y : string) (branch : list cell) : DataFrame :=
  mkDataFrame ["A"; "B"; "C"; "D"; "E"]
    [("Branch", branch);
     (col, [Some x; Some x; Some x; Some y; Some y])].

(** A roster whose single round pairs Ann with Ben, and the same roster
    after a second round that pairs them again. *)
Definition once_df : DataFrame :=
  mkDataFrame ["Ann"; "Ben"; "Cat"]
    [("Group_1", [Some "A"; Some "A"; Some "B"])].
Definition twice_df : DataFrame :=
  mkDataFrame ["Ann"; "Ben"; "Cat"]
    [("Group_1", [Some "A"; Some "A"; Some "B"]);
     ("Group_2", [Some "A"; Some "A"; Some "B"])].

(** Some round column among [cols] holds two different rows with the same
    label. *)
Definition shared_in (cols : list string) (df : DataFrame) : Prop :=
  exists col labels k a b,
    col ∈ cols /\ column_lookup col (other_columns df) = Some labels /\
    rows_share k labels (Name df) a b.

(** [p] is not in the set the mapping holds for [person1]; true when the
    mapping has no entry for [person1]. *)
Definition not_avoided (past_pairings : pairings) (person1 p : string) : Prop :=
  ~ paired past_pairings person1 p.

(** No two different members of the group are in each other's sets. *)
Definition repeat_free (past_pairings : pairings) (group : list string) : Prop :=
  forall p q, p ∈ group -> q ∈ group -> p <> q ->
    ~ (paired past_pairings p q /\ paired past_pairings q p).

(** A history in which Ben and Cat were grouped together and Ann with
    nobody. *)
Definition ben_cat : pairings :=
  {[ "Ben" := {[ "Cat" ]}; "Cat" := {[ "Ben" ]} ]}.

(** A roster of the given names without any other column. *)
Definition roster (names : list string) : DataFrame := mkDataFrame names [].

(** A roster whose rounds are numbered 1 and 3, next to a column that only
    starts with the prefix. *)
Definition gap_df : DataFrame :=
  mkDataFrame ["Ann"; "Ben"]
    [("Branch", [Some "HR"; Some "IT"]);
     ("Group_1", [Some "A"; Some "A"]);
     ("Group_x", [Some "p"; Some "q"]);
     ("Group_3", [Some "B"; Some "B"])].

(** * Properties *)

(** ** Strings and decimal numerals *)

Section Strings.

Lemma append_cons (c : ascii) (s t : string) :
  String c s +:+ t = String c (s +:+ t).
Proof. reflexivity. Qed.

Lemma append_empty (t : string) : "" +:+ t = t.
Proof. reflexivity. Qed.

Lemma startswith_split (s p : string) :
  Py.startswith s p = true -> s = p +:+ Py.slice_from (String.length p) s.
Proof.
  revert s. induction p as [|a p IH]; intros s H; [done|].
  destruct s as [|b s]; simpl in *; [done|].
  destruct (Ascii.eqb a b) eqn:E; [|done].
  apply Ascii.eqb_eq in E as ->. rewrite append_cons. f_equal. by apply IH.
Qed.

Lemma startswith_app (p s : string) : Py.startswith (p +:+ s) p = true.
Proof.
  induction p as [|a p IH]; [done|].
  rewrite append_cons. simpl. by rewrite Ascii.eqb_refl.
Qed.

Lemma slice_from_app (p s : string) : Py.slice_from (String.length p) (p +:+ s) = s.
Proof.
  induction p as [|a p IH]; [by destruct s|]. by rewrite append_cons.
Qed.

Lemma isdigit_all_digits (s : string) : Py.isdigit s = true -> Py.all_digits s = true.
Proof. by destruct s. Qed.

Lemma split_all_digits (s : string) :
  Py.all_digits s = true -> Py.split "_" s = [s].
Proof.
  induction s as [|c s IH]; simpl; [done|].
  intros [Hc Hs]%andb_prop. rewrite (IH Hs).
  destruct (Ascii.eqb c "_") eqn:E; [|done].
  apply Ascii.eqb_eq in E as ->. done.
Qed.

Lemma uint_of_string_all_digits (s : string) :
  Py.all_digits s = true -> is_Some (NilEmpty.uint_of_string s).
Proof.
  induction s as [|c s IH]; simpl; [by eexists|].
  intros [Hc Hs]%andb_prop. destruct (IH Hs) as [d ->].
  unfold Py.is_digit_char in Hc.
  destruct c as [[] [] [] [] [] [] [] []]; simpl in Hc; try done; by eexists.
Qed.

Lemma all_digits_string_of_uint (d : Decimal.uint) :
  Py.all_digits (NilEmpty.string_of_uint d) = true.
Proof. induction d; simpl; done. Qed.

Lemma isdigit_str (n : N) : Py.isdigit (Py.str n) = true.
Proof.
  unfold Py.str. pose proof (all_digits_string_of_uint (N.to_uint n)) as H.
  destruct n as [|q]; [done|]. simpl in *.
  pose proof (DecimalPos.Unsigned.to_uint_nonnil q) as Hn.
  destruct (Pos.to_uint q); simpl in *; done.
Qed.

Lemma int_str (n : N) : Py.int (Py.str n) = Ok n.
Proof.
  unfold Py.int. rewrite isdigit_str. unfold Py.str.
  by rewrite NilEmpty.usu, DecimalN.Unsigned.of_to.
Qed.

Lemma int_Ok_isdigit (s : string) (n : N) : Py.int s = Ok n -> Py.isdigit s = true.
Proof. unfold Py.int. by destruct (Py.isdigit s). Qed.

Lemma int_isdigit (s : string) : Py.isdigit s = true -> exists n, Py.int s = Ok n.
Proof.
  intros H. unfold Py.int. rewrite H.
  destruct (uint_of_string_all_digits s (isdigit_all_digits s H)) as [d ->].
  by eexists.
Qed.

Lemma string_compare_refl (s : string) : String.compare s s = Eq.
Proof.
  pose proof (String.compare_antisym s s) as H.
  destruct (String.compare s s); simpl in H; congruence.
Qed.

End Strings.

(** ** Round labeling *)

Section RoundLabeling.

Lemma round_column_group_col (col : string) (n : N) :
  round_column col n -> is_group_col col = true.
Proof.
  intros (suffix & -> & Hn). unfold is_group_col.
  rewrite startswith_app. change 6 with (String.length "Group_").
  rewrite slice_from_app. by rewrite (int_Ok_isdigit _ _ Hn).
Qed.

Lemma round_column_fun (col : string) (n n' : N) :
  round_column col n -> round_column col n' -> n = n'.
Proof.
  intros (s1 & -> & H1) (s2 & E & H2).
  apply (inj (String.append "Group_")) in E as <-. congruence.
Qed.

(** The number the source reads off a round column,
    [int(col.split('_')[1])], is the value of its suffix. *)
Lemma group_col_number (col : string) :
  is_group_col col = true ->
  exists n, round_column col n /\
    (piece ← Py.getitem (Py.split "_" col) 1; Py.int piece) = Ok n.
Proof.
  unfold is_group_col. intros [Hp Hd]%andb_prop.
  apply startswith_split in Hp. simpl String.length in Hp.
  set (suffix := Py.slice_from 6 col) in *.
  destruct (int_isdigit suffix Hd) as [n Hn].
  exists n. split; [by exists suffix|].
  rewrite Hp. repeat rewrite append_cons. rewrite append_empty. simpl.
  by rewrite (split_all_digits suffix (isdigit_all_digits _ Hd)).
Qed.

Lemma group_numbers_spec (cols : list string) :
  Forall (fun col => is_group_col col = true) cols ->
  exists numbers,
    comprehension
      (fun col => piece ← Py.getitem (Py.split "_" col) 1; Py.int piece) cols
    = Ok numbers /\ Forall2 round_column cols numbers.
Proof.
  induction 1 as [|col cols Hcol _ (numbers & IH & HF)].
  - exists []. by split.
  - destruct (group_col_number col Hcol) as (n & Hn & E).
    exists (n :: numbers). simpl comprehension. rewrite E, IH.
    split; [done|]. by constructor.
Qed.

Lemma foldl_max_spec (l : list N) (x : N) :
  foldl N.max x l ∈ x :: l /\ forall y, y ∈ x :: l -> (y <= foldl N.max x l)%N.
Proof.
  revert x. induction l as [|z l IH]; intros x; simpl.
  - split; [set_solver|]. intros y ->%list_elem_of_singleton. lia.
  - destruct (IH (N.max x z)) as [Hin Hle]. split.
    + apply elem_of_cons in Hin as [Hin|Hin]; [|set_solver].
      rewrite Hin. destruct (N.max_spec x z) as [[_ ->]|[_ ->]]; set_solver.
    + intros y Hy.
      assert (y <= N.max x z \/ y ∈ l)%N as [Hy'|Hy'].
      { apply elem_of_cons in Hy as [->|Hy]; [left; lia|].
        apply elem_of_cons in Hy as [->|Hy]; [left; lia|by right]. }
      * etransitivity; [exact Hy'|]. apply Hle. set_solver.
      * apply Hle. set_solver.
Qed.

Lemma has_round_filter (df : DataFrame) (n : N) :
  has_round df n <->
  exists col, col ∈ filter (fun col => is_group_col col = true) (columns df)
              /\ round_column col n.
Proof.
  split; intros (col & Hin & Hr); exists col; split; try done.
  - apply list_elem_of_filter. split; [|done]. by eapply round_column_group_col.
  - by apply list_elem_of_filter in Hin as [_ ?].
Qed.

(** The label is [Group_1] on a table without round columns and otherwise
    the prefix followed by the largest round number plus one. *)
Lemma next_name_spec (df : DataFrame) :
  ((forall n, ~ has_round df n) /\
     Streamlit.get_next_group_column_name df = Ok "Group_1") \/
  (exists m, max_round df m /\
     Streamlit.get_next_group_column_name df = Ok ("Group_" +:+ Py.str (m + 1))).
Proof.
  unfold Streamlit.get_next_group_column_name.
  pose proof (has_round_filter df) as Hhr.
  assert (Forall (fun col => is_group_col col = true)
            (filter (fun col => is_group_col col = true) (columns df))) as HF.
  { apply Forall_forall. by intros col [? _]%list_elem_of_filter. }
  destruct (filter _ (columns df)) as [|col0 cols] eqn:E.
  - left. split; [|done]. intros n (col & Hin & _)%Hhr. set_solver.
  - right. destruct (group_numbers_spec _ HF) as (numbers & -> & H2).
    destruct numbers as [|x numbers]; [by apply Forall2_length in H2|].
    simpl. destruct (foldl_max_spec numbers x) as [Hin Hle].
    exists (foldl N.max x numbers). split; [|done]. split.
    + apply Hhr. apply list_elem_of_lookup in Hin as [i Hi].
      destruct (Forall2_lookup_r _ _ _ _ _ H2 Hi) as (col & Hc & Hr).
      exists col. split; [|done]. by eapply list_elem_of_lookup_2.
    + intros n (col & [i Hi]%list_elem_of_lookup & Hr)%Hhr.
      destruct (Forall2_lookup_l _ _ _ _ _ H2 Hi) as (n' & Hn' & Hr').
      rewrite (round_column_fun _ _ _ Hr Hr'). apply Hle.
      by eapply list_elem_of_lookup_2.
Qed.

Lemma max_round_unique (df : DataFrame) (m m' : N) :
  max_round df m -> max_round df m' -> m = m'.
Proof. intros [H1 L1] [H2 L2]. apply N.le_antisymm; auto. Qed.

Lemma next_name_max (df : DataFrame) (m : N) :
  max_round df m ->
  Streamlit.get_next_group_column_name df = Ok ("Group_" +:+ Py.str (m + 1)).
Proof.
  intros Hm. destruct (next_name_spec df) as [[Hno _]|(m' & Hm' & ->)].
  - destruct Hm as [Hm _]. by destruct (Hno m).
  - by rewrite (max_round_unique df m m').
Qed.

(** The label only depends on the set of round numbers of the table. *)
Lemma next_name_ext (df df' : DataFrame) :
  (forall n, has_round df n <-> has_round df' n) ->
  Streamlit.get_next_group_column_name df =
  Streamlit.get_next_group_column_name df'.
Proof.
  intros Hext.
  destruct (next_name_spec df) as [[Hno ->]|(m & Hm & ->)].
  - destruct (next_name_spec df') as [[_ ->]|(m' & [Hm' _] & _)]; [done|].
    apply Hext in Hm'. by destruct (Hno m').
  - symmetry. apply next_name_max. destruct Hm as [Hm Hle]. split.
    + by apply Hext.
    + intros n Hn. apply Hle. by apply Hext.
Qed.

Lemma round_column_inv (col : string) (n : N) :
  round_column col n ->
  Py.startswith col "Group_" = true /\ Py.int (Py.slice_from 6 col) = Ok n.
Proof.
  intros (suffix & -> & Hn). rewrite startswith_app.
  change 6 with (String.length "Group_"). by rewrite slice_from_app.
Qed.

Lemma prefix_only_not_round (col : string) (n : N) :
  prefix_only col -> ~ round_column col n.
Proof.
  intros [_ Hd] [_ Hn]%round_column_inv.
  apply int_Ok_isdigit in Hn. congruence.
Qed.





End RoundLabeling.

(** ** History extraction *)

Section Extraction.

Lemma elem_of_enumerate_from (l : list string) (k i : nat) (a : string) :
  (i, a) ∈ Py.enumerate_from k l <-> k <= i /\ l !! (i - k) = Some a.
Proof.
  revert k. induction l as [|x l IH]; intros k; simpl.
  - split; [by intros ?%elem_of_nil|by intros [_ ?]].
  - rewrite elem_of_cons, IH. split.
    + intros [[= -> ->]|[Hle Hl]].
      * split; [lia|]. by rewrite Nat.sub_diag.
      * split; [lia|]. by replace (i - k) with (S (i - S k)) by lia.
    + intros [Hle Hl]. destruct (decide (i = k)) as [->|Hne].
      * left. rewrite Nat.sub_diag in Hl. simpl in Hl. congruence.
      * right. split; [lia|].
        by replace (i - k) with (S (i - S k)) in Hl by lia.
Qed.

Lemma elem_of_enumerate (l : list string) (i : nat) (a : string) :
  (i, a) ∈ Py.enumerate l <-> l !! i = Some a.
Proof.
  unfold Py.enumerate. rewrite elem_of_enumerate_from, Nat.sub_0_r.
  split; [by intros [_ ?]|]. split; [lia|done].
Qed.

Lemma enumerate_snd (l : list string) (k : nat) :
  (Py.enumerate_from k l).*2 = l.
Proof. revert k. induction l as [|x l IH]; intros k; simpl; by f_equal. Qed.

Lemma add_partners_spec (i : nat) (p1 : string) (js : list (nat * string))
    (m : pairings) (s : gset string) :
  m !! p1 = Some s ->
  exists s', Streamlit.add_partners i p1 js m = Ok (<[p1 := s']> m) /\
    forall b, b ∈ s' <-> b ∈ s \/ exists j, (j, b) ∈ js /\ i <> j.
Proof.
  revert m s. induction js as [|[j p2] js IH]; intros m s Hs; simpl.
  - exists s. split; [by rewrite insert_id|]. intros b. split; [by left|].
    intros [?|(j & ?%elem_of_nil & _)]; done.
  - destruct (decide (i ≠ j)) as [Hne|Heq].
    + unfold set_add, dict_getitem. rewrite Hs. simpl.
      destruct (IH (<[p1 := s ∪ {[p2]}]> m) (s ∪ {[p2]})) as (s' & E & Hs').
      { by rewrite lookup_insert_eq. }
      exists s'. rewrite E, insert_insert_eq. split; [done|].
      intros b. rewrite Hs'. split.
      * intros [[?| ->%elem_of_singleton]%elem_of_union|(j' & Hin & ?)].
        -- by left.
        -- right. exists j. split; [left|done].
        -- right. exists j'. split; [by right|done].
      * intros [?|(j' & [[= -> ->]|Hin]%elem_of_cons & ?)].
        -- left. set_solver.
        -- left. set_solver.
        -- right. by exists j'.
    + destruct (IH m s Hs) as (s' & E & Hs'). exists s'. split; [done|].
      intros b. rewrite Hs'. split.
      * intros [?|(j' & Hin & ?)]; [by left|].
        right. exists j'. split; [by right|done].
      * intros [?|(j' & [[= -> ->]|Hin]%elem_of_cons & ?)]; [by left| |].
        -- by destruct Heq.
        -- right. by exists j'.
Qed.

Lemma paired_insert (m : pairings) (p1 : string) (s : gset string) (a b : string) :
  paired (<[p1 := s]> m) a b <-> (a = p1 /\ b ∈ s) \/ (a <> p1 /\ paired m a b).
Proof.
  unfold paired. destruct (decide (a = p1)) as [->|Hne].
  - rewrite lookup_insert_eq. split.
    + intros (s' & [= <-] & ?). by left.
    + intros [[_ ?]|[? _]]; [|done]. by exists s.
  - rewrite lookup_insert_ne by done. split; [by right|].
    by intros [[? _]|[_ ?]].
Qed.

Lemma record_members_spec (members : list string) (ips : list (nat * string))
    (m : pairings) :
  exists m', Streamlit.record_members members ips m = Ok m' /\
    dom m' = dom m ∪ list_to_set ips.*2 /\
    forall a b, paired m' a b <->
      paired m a b \/
      exists i j, (i, a) ∈ ips /\ members !! j = Some b /\ i <> j.
Proof.
  revert m. induction ips as [|[i p1] ips IH]; intros m; simpl.
  - exists m. split; [done|]. split; [set_solver|]. intros a b.
    split; [by left|]. by intros [?|(i & j & ?%elem_of_nil & _)].
  - set (m1 := if decide (p1 ∉ dom m) then <[p1 := ∅]> m else m).
    assert (exists s, m1 !! p1 = Some s /\ (forall b, b ∈ s <-> paired m p1 b) /\
              dom m1 = dom m ∪ {[p1]} /\ <[p1 := s]> m = m1)
      as (s & Hs & Hsp & Hd1 & Hm1).
    { subst m1. destruct (decide (p1 ∉ dom m)) as [Hn|Hy].
      - exists ∅. rewrite lookup_insert_eq, dom_insert_L.
        repeat split; try done; try set_solver.
        apply not_elem_of_dom in Hn. intros (s & ? & _). congruence.
      - apply dec_stable in Hy. apply elem_of_dom in Hy as [s Hs].
        exists s. rewrite insert_id by done. repeat split; try done.
        + intros ?. by exists s.
        + intros (s' & ? & ?). congruence.
        + apply elem_of_dom_2 in Hs. set_solver. }
    destruct (add_partners_spec i p1 (Py.enumerate members) m1 s Hs)
      as (s' & -> & Hs'). simpl.
    destruct (IH (<[p1 := s']> m1)) as (m' & -> & Hd & Hp).
    exists m'. split; [done|]. split.
    { rewrite Hd, dom_insert_L, Hd1. set_solver. }
    intros a b. rewrite Hp, <- Hm1, insert_insert_eq, paired_insert. split.
    + intros [[[-> Hb]|[Hne Hab]]|(i' & j & Hin & Hj & Hne)].
      * apply Hs' in Hb as [Hb|(j & Hj%elem_of_enumerate & Hne)].
        -- left. by apply Hsp.
        -- right. exists i, j. split; [left|done].
      * by left.
      * right. exists i', j. split; [by right|done].
    + intros [Hab|(i' & j & [[= -> ->]|Hin]%elem_of_cons & Hj & Hne)].
      * left. destruct (decide (a = p1)) as [->|Hne]; [left|right; done].
        split; [done|]. apply Hs'. left. by apply Hsp.
      * left. left. split; [done|]. apply Hs'. right. exists j.
        split; [by apply elem_of_enumerate|done].
      * right. by exists i', j.
Qed.

Lemma rows_with_elem (k : string) (labels : list cell) (names : list string)
    (a : string) :
  a ∈ rows_with k labels names <->
  exists r, labels !! r = Some (Some k) /\ names !! r = Some a.
Proof.
  revert names. induction labels as [|l labels IH]; intros [|n names]; simpl;
    try (split; [by intros ?%elem_of_nil|by intros ([|r] & ? & ?)]).
  destruct (decide (l = Some k)) as [->|Hne].
  - rewrite elem_of_cons, IH. split.
    + intros [->|(r & ? & ?)]; [by exists 0|by exists (S r)].
    + intros ([|r] & Hl & Hn); simpl in *; [left; congruence|right; eauto].
  - rewrite IH. split.
    + intros (r & ? & ?). by exists (S r).
    + intros ([|r] & Hl & Hn); simpl in *; [congruence|eauto].
Qed.

Lemma at_distinct_cons (x : string) (l : list string) (a b : string) :
  at_distinct (x :: l) a b <->
  (a = x /\ b ∈ l) \/ (b = x /\ a ∈ l) \/ at_distinct l a b.
Proof.
  unfold at_distinct. split.
  - intros ([|i] & [|j] & Hne & Hi & Hj); simpl in *; try done.
    + left. split; [congruence|]. by eapply list_elem_of_lookup_2.
    + right. left. split; [congruence|]. by eapply list_elem_of_lookup_2.
    + right. right. exists i, j. split; [congruence|done].
  - intros [[-> [j Hj]%list_elem_of_lookup]|
            [[-> [i Hi]%list_elem_of_lookup]|(i & j & Hne & Hi & Hj)]].
    + by exists 0, (S j).
    + by exists (S i), 0.
    + exists (S i), (S j). split; [congruence|done].
Qed.

Lemma rows_share_cons (k : string) (l : cell) (labels : list cell) (n : string)
    (names : list string) (a b : string) :
  rows_share k (l :: labels) (n :: names) a b <->
  (l = Some k /\ a = n /\ b ∈ rows_with k labels names) \/
  (l = Some k /\ b = n /\ a ∈ rows_with k labels names) \/
  rows_share k labels names a b.
Proof.
  unfold rows_share. rewrite !rows_with_elem. split.
  - intros ([|r1] & [|r2] & Hne & Hl1 & Hl2 & Hn1 & Hn2); simpl in *; try done.
    + left. repeat split; [congruence..|by exists r2].
    + right. left. repeat split; [congruence..|by exists r1].
    + right. right. exists r1, r2. split; [congruence|done].
  - intros [(-> & -> & r & ? & ?)|[(-> & -> & r & ? & ?)|
            (r1 & r2 & Hne & ?)]].
    + by exists 0, (S r).
    + by exists (S r), 0.
    + exists (S r1), (S r2). split; [congruence|done].
Qed.

Lemma rows_with_pair (k : string) (labels : list cell) (names : list string)
    (a b : string) :
  at_distinct (rows_with k labels names) a b <-> rows_share k labels names a b.
Proof.
  revert names. induction labels as [|l labels IH]; intros [|n names]; simpl;
    try (split; [by intros ([|?] & ? & ? & ? & ?)|
                 by intros ([|?] & ? & ? & ? & ? & ? & ?)]).
  rewrite rows_share_cons. destruct (decide (l = Some k)) as [->|Hne].
  - rewrite at_distinct_cons, IH. naive_solver.
  - rewrite IH. naive_solver.
Qed.

Lemma elem_of_key_insert (k k' : string) (keys : list string) :
  k ∈ key_insert k' keys <-> k = k' \/ k ∈ keys.
Proof.
  induction keys as [|x keys IH]; simpl; [set_solver|].
  destruct (String.compare k' x) eqn:E.
  - apply String.compare_eq_iff in E as ->. set_solver.
  - set_solver.
  - rewrite !elem_of_cons, IH. naive_solver.
Qed.

Lemma elem_of_group_keys (k : string) (labels : list cell) :
  k ∈ group_keys labels <-> Some k ∈ labels.
Proof.
  induction labels as [|[x|] labels IH]; simpl.
  - set_solver.
  - rewrite elem_of_key_insert, IH, elem_of_cons. naive_solver.
  - rewrite IH, elem_of_cons. naive_solver.
Qed.

Lemma at_distinct_length (l : list string) (a b : string) :
  at_distinct l a b -> 1 < length l.
Proof.
  intros (i & j & Hne & Hi%lookup_lt_Some & Hj%lookup_lt_Some). lia.
Qed.

Lemma at_distinct_other (l : list string) (a : string) :
  1 < length l -> a ∈ l -> exists b, at_distinct l a b.
Proof.
  intros Hlen [i Hi]%list_elem_of_lookup.
  destruct (decide (i = 0)) as [->|Hne].
  - destruct (lookup_lt_is_Some_2 l 1 Hlen) as [b Hb]. by exists b, 0, 1.
  - destruct (lookup_lt_is_Some_2 l 0) as [b Hb]; [lia|]. by exists b, i, 0.
Qed.

Lemma record_groups_spec (grouped_data : list (string * list string))
    (m : pairings) :
  exists m', Streamlit.record_groups grouped_data m = Ok m' /\
    (keys_paired m -> keys_paired m') /\
    forall a b, paired m' a b <->
      paired m a b \/
      exists key members, (key, members) ∈ grouped_data /\ at_distinct members a b.
Proof.
  revert m. induction grouped_data as [|[key members] gd IH]; intros m; simpl.
  - exists m. repeat split; [done|by left|].
    by intros [?|(? & ? & ?%elem_of_nil & _)].
  - destruct (decide (1 < length members)) as [Hlen|Hlen].
    + destruct (record_members_spec members (Py.enumerate members) m)
        as (m1 & -> & Hd1 & Hp1). simpl.
      destruct (IH m1) as (m' & -> & Hk & Hp). exists m'. split; [done|].
      assert (forall a b, paired m1 a b <-> paired m a b \/ at_distinct members a b)
        as Hp1'.
      { intros a b. rewrite Hp1. unfold at_distinct.
        setoid_rewrite elem_of_enumerate. naive_solver. }
      split.
      * intros Hm. apply Hk. intros a Ha%elem_of_dom. rewrite Hd1 in Ha.
        unfold Py.enumerate in Ha. rewrite enumerate_snd in Ha.
        apply elem_of_union in Ha as [Ha%elem_of_dom|Ha%elem_of_list_to_set].
        -- destruct (Hm a Ha) as [b Hb]. exists b. apply Hp1'. by left.
        -- destruct (at_distinct_other members a Hlen Ha) as [b Hb].
           exists b. apply Hp1'. by right.
      * intros a b. rewrite Hp, Hp1'. split.
        -- intros [[?|?]|(key' & members' & Hin & ?)]; [by left| |].
           ++ right. exists key, members. split; [left|done].
           ++ right. exists key', members'. split; [by right|done].
        -- intros [?|(key' & members' & [[= -> ->]|Hin]%elem_of_cons & ?)].
           ++ by left; left.
           ++ by left; right.
           ++ right. by exists key', members'.
    + destruct (IH m) as (m' & -> & Hk & Hp). exists m'. repeat split; try done.
      * rewrite Hp. intros [?|(key' & members' & Hin & ?)]; [by left|].
        right. exists key', members'. split; [by right|done].
      * rewrite Hp.
        intros [?|(key' & members' & [[= -> ->]|Hin]%elem_of_cons & Hd)].
        -- by left.
        -- by apply at_distinct_length in Hd.
        -- right. by exists key', members'.
Qed.

Lemma column_lookup_Some (col : string) (cols : list (string * list cell))
    (labels : list cell) :
  column_lookup col cols = Some labels -> col ∈ cols.*1.
Proof.
  induction cols as [|[c v] cols IH]; simpl; [done|].
  destruct (String.eqb c col) eqn:E.
  - apply String.eqb_eq in E as ->. intros _. left.
  - intros H. right. by apply IH.
Qed.

Lemma column_lookup_is_Some (col : string) (cols : list (string * list cell)) :
  col ∈ cols.*1 -> is_Some (column_lookup col cols).
Proof.
  induction cols as [|[c v] cols IH]; simpl; [by intros ?%elem_of_nil|].
  destruct (String.eqb c col) eqn:E; [by eexists|].
  apply String.eqb_neq in E. intros [?|?]%elem_of_cons; [done|by apply IH].
Qed.

Lemma groupby_names_spec (col : string) (df : DataFrame) (labels : list cell) :
  column_lookup col (other_columns df) = Some labels ->
  exists grouped_data,
    groupby_names col df = Ok (grouped_data, df) /\
    forall key members, (key, members) ∈ grouped_data <->
      Some key ∈ labels /\ members = rows_with key labels (Name df).
Proof.
  intros E. unfold groupby_names, column_values. rewrite E. simpl.
  eexists. split; [done|]. intros key members.
  rewrite list_elem_of_fmap. setoid_rewrite elem_of_group_keys. naive_solver.
Qed.

Lemma rows_share_label (k : string) (labels : list cell) (names : list string)
    (a b : string) :
  rows_share k labels names a b -> Some k ∈ labels.
Proof. intros (r1 & _ & _ & H & _). by eapply list_elem_of_lookup_2. Qed.

Lemma scan_columns_spec (cols : list string) (m : pairings) (df : DataFrame) :
  Forall (fun col => is_Some (column_lookup col (other_columns df))) cols ->
  exists m', Streamlit.scan_columns cols m df = Ok (m', df) /\
    (keys_paired m -> keys_paired m') /\
    forall a b, paired m' a b <->
      paired m a b \/
      exists col labels k,
        col ∈ cols /\ column_lookup col (other_columns df) = Some labels /\
        rows_share k labels (Name df) a b.
Proof.
  intros HF. revert m. induction HF as [|col cols [labels Hl] _ IH]; intros m.
  - exists m. repeat split; [done|by left|].
    by intros [?|(? & ? & ? & ?%elem_of_nil & _)].
  - simpl. destruct (groupby_names_spec col df labels Hl) as (gd & -> & Hgd).
    simpl. destruct (record_groups_spec gd m) as (m1 & -> & Hk1 & Hp1). simpl.
    destruct (IH m1) as (m' & -> & Hk & Hp). exists m'.
    repeat split; [auto|..]; rewrite Hp, Hp1.
    + intros [[?|(key & members & [Hkey ->]%Hgd & Hd%rows_with_pair)]|
              (col' & labels' & k & Hin & ?)]; [by left|..].
      * right. exists col, labels, key. split; [left|done].
      * right. exists col', labels', k. split; [by right|done].
    + intros [?|(col' & labels' & k & [->|Hin]%elem_of_cons & Hl' & Hs)].
      * by left; left.
      * left. right. assert (labels' = labels) as -> by congruence.
        exists k, (rows_with k labels (Name df)). split.
        -- apply Hgd. split; [|done]. by eapply rows_share_label.
        -- by apply rows_with_pair.
      * right. by exists col', labels', k.
Qed.

Lemma paired_empty (a b : string) : ~ paired ∅ a b.
Proof. intros (s & Hs & _). by rewrite lookup_empty in Hs. Qed.

Lemma keys_paired_empty : keys_paired ∅.
Proof. intros a [s Hs]. by rewrite lookup_empty in Hs. Qed.

Lemma group_cols_lookup (df : DataFrame) :
  Forall (fun col => is_Some (column_lookup col (other_columns df)))
    (filter (fun col => is_group_col col = true) (columns df)).
Proof.
  apply Forall_forall. intros col [Hg Hin]%list_elem_of_filter.
  unfold columns in Hin. apply elem_of_cons in Hin as [->|Hin]; [done|].
  by apply column_lookup_is_Some.
Qed.

(** The mapping that [get_past_pairings] builds holds [b] for [a] exactly
    when [a] and [b] stand in two different rows that share a label in a
    round column; every key has a partner; the table is handed back as it
    was. *)
Lemma get_past_pairings_spec (df : DataFrame) :
  exists m, Streamlit.get_past_pairings df = Ok (m, df) /\
    keys_paired m /\
    forall a b, paired m a b <-> shared_round df a b.
Proof.
  destruct (scan_columns_spec _ ∅ df (group_cols_lookup df))
    as (m & E & Hk & Hp).
  assert (forall a b,
    (exists col labels k,
       col ∈ filter (fun col => is_group_col col = true) (columns df) /\
       column_lookup col (other_columns df) = Some labels /\
       rows_share k labels (Name df) a b) <-> shared_round df a b) as Hsr.
  { intros a b. split.
    - intros (col & labels & k & [Hg _]%list_elem_of_filter & Hl & Hs).
      destruct (group_col_number col Hg) as (n & Hn & _).
      by exists col, n, labels, k.
    - intros (col & n & labels & k & Hn & Hl & Hs). exists col, labels, k.
      split; [|done]. apply list_elem_of_filter.
      split; [by eapply round_column_group_col|].
      right. by eapply column_lookup_Some. }
  unfold Streamlit.get_past_pairings.
  destruct (filter _ (columns df)) as [|col0 cols] eqn:Ef.
  - exists ∅. split; [done|]. split; [apply keys_paired_empty|].
    intros a b. rewrite <- Hsr. split; [by intros ?%paired_empty|].
    by intros (? & ? & ? & ?%elem_of_nil & _).
  - exists m. split; [done|]. split; [apply Hk, keys_paired_empty|].
    intros a b. rewrite Hp, Hsr. split; [|by right].
    by intros [?%paired_empty|?].
Qed.

(** A mapping in which every key has a partner is determined by its
    pairs. *)
Lemma pairings_ext (m m' : pairings) :
  keys_paired m -> keys_paired m' ->
  (forall a b, paired m a b <-> paired m' a b) -> m = m'.
Proof.
  intros Hk Hk' Hp. apply map_eq. intros a.
  destruct (m !! a) as [s|] eqn:E, (m' !! a) as [s'|] eqn:E'; try done.
  - f_equal. apply set_eq. intros b. split; intros Hb.
    + destruct (proj1 (Hp a b)) as (s2 & ? & ?); [by exists s|]. congruence.
    + destruct (proj2 (Hp a b)) as (s2 & ? & ?); [by exists s'|]. congruence.
  - destruct (Hk a) as [b Hb]; [by eexists|].
    apply Hp in Hb as (? & ? & _). congruence.
  - destruct (Hk' a) as [b Hb]; [by eexists|].
    apply Hp in Hb as (? & ? & _). congruence.
Qed.

Lemma shared_round_sym (df : DataFrame) (a b : string) :
  shared_round df a b -> shared_round df b a.
Proof.
  intros (col & n & labels & k & Hn & Hl & r1 & r2 & Hne & ?).
  exists col, n, labels, k. repeat split; try done. exists r2, r1. naive_solver.
Qed.

Lemma shared_round_has_round (df : DataFrame) (a b : string) :
  shared_round df a b -> exists n, has_round df n.
Proof.
  intros (col & n & labels & k & Hn & Hl & _). exists n, col.
  split; [|done]. right. by eapply column_lookup_Some.
Qed.

Lemma one_round_groupby (col x y : string) (branch : list cell) (n : N) :
  round_column col n -> x <> y ->
  let df := one_round_df col x y branch in
  groupby_names col df = Ok ([(x, ["A"; "B"; "C"]); (y, ["D"; "E"])], df) \/
  groupby_names col df = Ok ([(y, ["D"; "E"]); (x, ["A"; "B"; "C"])], df).
Proof.
  intros Hn Hxy df.
  assert (String.eqb "Branch" col = false) as Hb.
  { destruct Hn as (suffix & -> & _). reflexivity. }
  set (labels := [Some x; Some x; Some x; Some y; Some y]).
  assert (rows_with x labels (Name df) = ["A"; "B"; "C"]) as Hx.
  { subst labels df. cbn [rows_with one_round_df Name].
    rewrite !decide_True by done. by rewrite !decide_False by congruence. }
  assert (rows_with y labels (Name df) = ["D"; "E"]) as Hy.
  { subst labels df. cbn [rows_with one_round_df Name].
    rewrite !decide_False by congruence. by rewrite !decide_True by done. }
  assert (group_keys labels = [x; y] \/ group_keys labels = [y; x]) as Hk.
  { subst labels. pose proof (string_compare_refl x) as Hxx.
    pose proof (string_compare_refl y) as Hyy.
    destruct (String.compare x y) eqn:E.
    - by apply String.compare_eq_iff in E.
    - left. cbn [group_keys].
      repeat (cbn [key_insert]; rewrite ?E, ?Hxx, ?Hyy). done.
    - right. cbn [group_keys].
      repeat (cbn [key_insert]; rewrite ?E, ?Hxx, ?Hyy). done. }
  unfold groupby_names, column_values. subst df.
  cbn [one_round_df other_columns column_lookup].
  rewrite Hb, String.eqb_refl. cbn [mbind outcome_bind].
  fold labels. fold (one_round_df col x y branch).
  destruct Hk as [-> | ->]; cbn [map]; rewrite Hx, Hy; auto.
Qed.

Lemma one_round_df_pairings (col x y : string) (branch : list cell) (n : N) :
  round_column col n -> x <> y ->
  Streamlit.get_past_pairings (one_round_df col x y branch) =
  Ok ({[ "A" := {[ "B"; "C" ]}; "B" := {[ "A"; "C" ]}; "C" := {[ "A"; "B" ]};
         "D" := {[ "E" ]}; "E" := {[ "D" ]} ]},
      one_round_df col x y branch).
Proof.
  intros Hn Hxy. pose proof (round_column_group_col col n Hn) as Hg.
  unfold Streamlit.get_past_pairings, columns.
  cbn [one_round_df other_columns Name map fst].
  rewrite filter_cons_False by done. rewrite filter_cons_False by done.
  rewrite filter_cons_True by done. rewrite filter_nil.
  fold (one_round_df col x y branch). cbn [Streamlit.scan_columns].
  destruct (one_round_groupby col x y branch n Hn Hxy) as [-> | ->];
    cbn [mbind outcome_bind];
    generalize (one_round_df col x y branch); intros df;
    vm_compute; reflexivity.
Qed.




End Extraction.

(** ** The Dash copy of the helpers *)

Section DashCopy.

Lemma dash_record_members_empty (members : list string) (i : nat) (p1 : string)
    (ips : list (nat * string)) (p2 : option string) :
  Dash.record_members members ((i, p1) :: ips) ∅ p2 = Raise (KeyError p1).
Proof.
  simpl. rewrite decide_True by set_solver.
  unfold Dash.set_add_local, dict_getitem. by rewrite lookup_empty.
Qed.

Lemma dash_record_groups_empty (grouped_data : list (string * list string))
    (p2 : option string) :
  (Forall (fun g => ~ 1 < length g.2) grouped_data /\
   Dash.record_groups grouped_data ∅ p2 = Ok (∅, p2)) \/
  (Exists (fun g => 1 < length g.2) grouped_data /\
   exists p, Dash.record_groups grouped_data ∅ p2 = Raise (KeyError p)).
Proof.
  induction grouped_data as [|[key members] gd IH]; simpl.
  - left. by split.
  - destruct (decide (1 < length members)) as [Hlen|Hlen].
    + right. split; [by left|]. destruct members as [|p1 members]; [simpl in *; lia|].
      exists p1. unfold Py.enumerate. cbn [Py.enumerate_from].
      by rewrite dash_record_members_empty.
    + destruct IH as [[HF E]|[HE E]].
      * left. split; [by constructor|done].
      * right. split; [by right|done].
Qed.

Lemma long_group_shares (k : string) (labels : list cell) (names : list string) :
  1 < length (rows_with k labels names) <->
  exists a b, rows_share k labels names a b.
Proof.
  setoid_rewrite <- rows_with_pair. split.
  - intros Hlen. destruct (rows_with k labels names) as [|a l] eqn:E;
      [simpl in *; lia|].
    exists a. apply at_distinct_other; [done|left].
  - intros (a & b & ?). by eapply at_distinct_length.
Qed.

Lemma dash_scan_columns_spec (cols : list string) (p2 : option string)
    (df : DataFrame) :
  Forall (fun col => is_Some (column_lookup col (other_columns df))) cols ->
  (~ shared_in cols df /\ Dash.scan_columns cols ∅ p2 df = Ok (∅, df)) \/
  (shared_in cols df /\
   exists p, Dash.scan_columns cols ∅ p2 df = Raise (KeyError p)).
Proof.
  induction 1 as [|col cols [labels Hl] _ IH]; simpl.
  - left. split; [|done]. by intros (? & ? & ? & ? & ? & ?%elem_of_nil & _).
  - destruct (groupby_names_spec col df labels Hl) as (gd & -> & Hgd). simpl.
    destruct (dash_record_groups_empty gd p2) as [[HF ->]|[HE [p ->]]]; simpl.
    + destruct IH as [[Hno E]|[Hyes E]].
      * left. split; [|done].
        intros (col' & labels' & k & a & b & [->|Hin]%elem_of_cons & Hl' & Hs).
        -- assert (labels' = labels) as -> by congruence.
           rewrite Forall_forall in HF.
           apply (HF (k, rows_with k labels (Name df))).
           ++ apply Hgd. split; [|done]. by eapply rows_share_label.
           ++ apply long_group_shares. by exists a, b.
        -- apply Hno. by exists col', labels', k, a, b.
      * right. split; [|done].
        destruct Hyes as (col' & labels' & k & a & b & Hin & ?).
        exists col', labels', k, a, b. split; [by right|done].
    + right. split; [|by exists p].
      apply Exists_exists in HE as ([key members] & [Hk ->]%Hgd & Hlen).
      apply long_group_shares in Hlen as (a & b & Hs).
      exists col, labels, key, a, b. split; [left|done].
Qed.

Lemma shared_in_group_cols (df : DataFrame) :
  shared_in (filter (fun col => is_group_col col = true) (columns df)) df <->
  exists a b, shared_round df a b.
Proof.
  split.
  - intros (col & labels & k & a & b & [Hg _]%list_elem_of_filter & Hl & Hs).
    destruct (group_col_number col Hg) as (n & Hn & _).
    by exists a, b, col, n, labels, k.
  - intros (a & b & col & n & labels & k & Hn & Hl & Hs).
    exists col, labels, k, a, b. split; [|done]. apply list_elem_of_filter.
    split; [by eapply round_column_group_col|].
    right. by eapply column_lookup_Some.
Qed.

(** The Dash copy of [get_past_pairings] returns the empty mapping when no
    round ever put two rows together, and raises [KeyError] otherwise. *)
Lemma dash_get_past_pairings_spec (df : DataFrame) :
  (~ (exists a b, shared_round df a b) /\
   Dash.get_past_pairings df = Ok (∅, df)) \/
  ((exists a b, shared_round df a b) /\
   exists p, Dash.get_past_pairings df = Raise (KeyError p)).
Proof.
  unfold Dash.get_past_pairings. rewrite <- shared_in_group_cols.
  destruct (dash_scan_columns_spec _ None df (group_cols_lookup df)) as [[H E]|[H E]].
  - left. split; [done|]. by destruct (filter _ (columns df)).
  - right. split; [done|]. destruct (filter _ (columns df)); [|done].
    by destruct H as (? & ? & ? & ? & ? & ?%elem_of_nil & _).
Qed.

(** The round-labeling and partitioning helpers of the two front-ends are
    the same functions. *)
Lemma dash_same_labeling :
  Dash.get_next_group_column_name = Streamlit.get_next_group_column_name.
Proof. reflexivity. Qed.

Lemma dash_same_partitioner :
  Dash.create_groups_intelligently = Streamlit.create_groups_intelligently.
Proof. reflexivity. Qed.

(** C5. On every roster in which some round column put two rows together,
    [get_past_pairings] of dash_app.py raises [KeyError], while
    [get_past_pairings] of cr_streamlit.py returns a mapping with at least
    one pair: the two front-ends do not compute the same history. *)
Theorem dash_history_extraction_raises (df : DataFrame) :
  (exists a b, shared_round df a b) ->
  (exists p, Dash.get_past_pairings df = Raise (KeyError p)) /\
  (exists m a b, Streamlit.get_past_pairings df = Ok (m, df) /\ paired m a b).
Proof.
  intros Hs. split.
  - destruct (dash_get_past_pairings_spec df) as [[Hno _]|[_ ?]]; done.
  - destruct (get_past_pairings_spec df) as (m & E & _ & Hp).
    destruct Hs as (a & b & Hs). exists m, a, b. split; [done|]. by apply Hp.
Qed.

Lemma dash_history_extraction_raises_witness :
  Dash.get_past_pairings mock_df = Raise (KeyError "Alice") /\
  (exists p, Dash.get_past_pairings mock_df = Raise (KeyError p)) /\
  (exists m a b, Streamlit.get_past_pairings mock_df = Ok (m, mock_df) /\
                 paired m a b).
Proof.
  split; [reflexivity|]. apply (dash_history_extraction_raises mock_df).
  exists "Alice", "Bob", "Group_1", 1%N,
    (map Some ["A"; "A"; "A"; "B"; "B"; "B"; "C"; "C"; "C"; "D"; "D"]), "A".
  split; [by exists "1"|]. split; [reflexivity|]. by exists 0, 1.
Defined.

End DashCopy.

(** ** Shuffling *)

Section Shuffle.

Context {A : Type}.
Implicit Types x : list A.

Lemma insert_Permutation x (i : nat) (a b : A) :
  x !! i = Some a -> <[i := b]> x ≡ₚ b :: delete i x.
Proof.
  intros H. rewrite insert_take_drop by by eapply lookup_lt_Some.
  rewrite delete_take_drop. symmetry. apply Permutation_middle.
Qed.

Lemma swap_Permutation x (i j : nat) : Random.swap i j x ≡ₚ x.
Proof.
  unfold Random.swap.
  destruct (x !! i) as [a|] eqn:Hi; [|done].
  destruct (x !! j) as [b|] eqn:Hj; [|done].
  destruct (decide (i = j)) as [->|Hne].
  - assert (a = b) as -> by congruence.
    by do 2 rewrite (list_insert_id x j b) by done.
  - assert (<[i := b]> x !! j = Some b) as Hj'.
    { by rewrite list_lookup_insert_ne. }
    etrans; [apply (insert_Permutation _ j b a Hj')|].
    etrans; [|symmetry; apply (delete_Permutation x i a Hi)].
    apply Permutation_skip. apply (Permutation_cons_inv (a := b)).
    etrans; [symmetry; apply (delete_Permutation _ j b Hj')|].
    by apply insert_Permutation with a.
Qed.

Lemma shuffle_from_Permutation (i : nat) x (r : Random.state) :
  (Random.shuffle_from i x r).1 ≡ₚ x.
Proof.
  revert x r. induction i as [|i IH]; intros x r; [done|].
  cbn [Random.shuffle_from]. destruct (Random.randbelow (S (S i)) r) as [j r'].
  rewrite IH. apply swap_Permutation.
Qed.

Lemma shuffle_Permutation x (r : Random.state) : (Random.shuffle x r).1 ≡ₚ x.
Proof. apply shuffle_from_Permutation. Qed.

End Shuffle.

(** ** Partitioning *)

Section Partition.

Lemma remove_spec (p : string) (l : list string) :
  p ∈ l -> exists l', Py.remove p l = Ok l' /\ l ≡ₚ p :: l'.
Proof.
  induction l as [|y l IH]; [by intros ?%elem_of_nil|]. intros Hin. simpl.
  destruct (String.eqb y p) eqn:E.
  - apply String.eqb_eq in E as ->. by exists l.
  - apply String.eqb_neq in E. apply elem_of_cons in Hin as [->|Hin]; [done|].
    destruct (IH Hin) as (l' & -> & Hp). exists (y :: l'). split; [done|].
    rewrite Hp. apply Permutation_swap.
Qed.

Lemma remove_length (p : string) (l l' : list string) :
  Py.remove p l = Ok l' -> length l = S (length l').
Proof.
  revert l'. induction l as [|y l IH]; intros l'; simpl; [done|].
  destruct (String.eqb y p); [by intros [= ->]|].
  destruct (Py.remove p l) as [l''| |]; simpl; try done.
  intros [= <-]. simpl. f_equal. by apply IH.
Qed.

Lemma candidates_for_spec (past_pairings : pairings) (person1 : string)
    (available : list string) :
  exists cs, Streamlit.candidates_for past_pairings person1 available = Ok cs /\
    cs `sublist_of` available /\
    Forall (not_avoided past_pairings person1) cs /\
    forall p, p ∈ available -> not_avoided past_pairings person1 p -> p ∈ cs.
Proof.
  induction available as [|p rest (cs & IH & Hsub & HF & Hall)]; simpl.
  - exists []. repeat split; try done.
  - rewrite IH.
    assert (exists c : bool,
      Streamlit.is_candidate past_pairings person1 p = Ok c /\
      (c = true <-> not_avoided past_pairings person1 p)) as (c & -> & Hc).
    { unfold Streamlit.is_candidate, not_avoided, paired.
      destruct (decide (person1 ∉ dom past_pairings)) as [Hn|Hy].
      - apply not_elem_of_dom in Hn. exists true. split; [done|].
        split; [|done]. intros _ (s & ? & _). congruence.
      - apply dec_stable in Hy. apply elem_of_dom in Hy as [s Hs].
        unfold dict_getitem. rewrite Hs. simpl. eexists. split; [done|].
        rewrite bool_decide_eq_true. split.
        + intros Hp (s' & ? & ?). congruence.
        + intros Hp Hin. apply Hp. by exists s. }
    simpl. destruct c.
    + exists (p :: cs). split; [done|]. split; [by constructor|]. split.
      * constructor; [|done]. by apply Hc.
      * intros q [->|Hq]%elem_of_cons ?; [left|right; by apply Hall].
    + exists cs. split; [done|]. split; [by constructor|]. split; [done|].
      intros q [->|Hq]%elem_of_cons Hna; [|by apply Hall].
      by apply Hc in Hna.
Qed.

Lemma fill_from_available_spec (n : nat) (group available : list string) :
  Streamlit.fill_from_available n group available =
  Ok (group ++ take n available, drop n available).
Proof.
  revert group available. induction n as [|n IH]; intros group available; simpl.
  - by rewrite app_nil_r, drop_0.
  - destruct available as [|p available]; simpl.
    + rewrite IH. by rewrite take_nil, drop_nil.
    + rewrite IH. by rewrite <- app_assoc.
Qed.

Lemma fill_from_candidates_spec (n : nat) (group cs available : list string) :
  cs ⊆+ available ->
  exists available',
    Streamlit.fill_from_candidates n group cs available =
      Ok (group ++ take n cs, available') /\
    available ≡ₚ take n cs ++ available'.
Proof.
  revert group cs available.
  induction n as [|n IH]; intros group cs available Hsub; simpl.
  - exists available. by rewrite app_nil_r.
  - destruct cs as [|p cs]; simpl.
    + destruct (IH group [] available Hsub) as (available' & -> & Hp).
      exists available'. by rewrite take_nil in *.
    + apply submseteq_cons_l in Hsub as (k & Hk & Hsub).
      destruct (remove_spec p available) as (l' & -> & Hl'); simpl.
      { rewrite Hk. left. }
      assert (cs ⊆+ l') as Hsub'.
      { rewrite Hl' in Hk. apply Permutation_cons_inv in Hk. by rewrite Hk. }
      destruct (IH (group ++ [p]) cs l' Hsub') as (available' & -> & Hp).
      exists available'. rewrite <- app_assoc. split; [done|].
      rewrite Hl'. simpl. by rewrite Hp.
Qed.

(** An iteration that takes the candidate branch emits the anchor followed
    by [group_size - 1] shuffled candidates. *)
Lemma form_group_candidate_branch (past_pairings : pairings) (group_size : Z)
    (person1 : string) (rest cs : list string) (r : Random.state) :
  Streamlit.candidates_for past_pairings person1 rest = Ok cs ->
  Streamlit.too_few_candidates cs group_size = false ->
  exists chosen available' r',
    Streamlit.form_group past_pairings group_size (person1 :: rest) r =
      Ok (person1 :: chosen, available', r') /\
    length chosen = Z.to_nat (group_size - 1) /\
    chosen ⊆+ cs /\
    rest ≡ₚ chosen ++ available'.
Proof.
  intros Hcs Hfew. unfold Streamlit.form_group. simpl. rewrite Hcs. simpl.
  rewrite Hfew. destruct (Random.shuffle cs r) as [cs' r'] eqn:Esh.
  assert (cs' ≡ₚ cs) as Hperm.
  { pose proof (shuffle_Permutation cs r) as H. by rewrite Esh in H. }
  destruct (candidates_for_spec past_pairings person1 rest)
    as (cs0 & E0 & Hsub & _). assert (cs0 = cs) as -> by congruence.
  assert (cs' ⊆+ rest) as Hsub'.
  { rewrite Hperm. by apply sublist_submseteq. }
  destruct (fill_from_candidates_spec (Z.to_nat (group_size - 1))
              [person1] cs' rest Hsub') as (available' & -> & Hp).
  simpl. exists (take (Z.to_nat (group_size - 1)) cs'), available', r'.
  split; [done|]. split; [|split; [|done]].
  - unfold Streamlit.too_few_candidates in Hfew.
    apply bool_decide_eq_false in Hfew. rewrite length_take.
    rewrite (Permutation_length Hperm). lia.
  - rewrite <- Hperm. apply submseteq_take.
Qed.

(** One iteration of the loop, entered with at least [group_size]
    participants, returns a group of exactly [group_size] of them and
    leaves the others available. *)
Lemma form_group_spec (past_pairings : pairings) (group_size : Z)
    (available : list string) (r : Random.state) :
  (1 <= group_size)%Z -> (group_size <= Z.of_nat (length available))%Z ->
  exists group available' r',
    Streamlit.form_group past_pairings group_size available r =
      Ok (group, available', r') /\
    length group = Z.to_nat group_size /\
    available ≡ₚ group ++ available'.
Proof.
  intros Hg Hlen. destruct available as [|person1 rest]; [simpl in *; lia|].
  simpl in Hlen.
  destruct (candidates_for_spec past_pairings person1 rest) as (cs & Hcs & _).
  destruct (Streamlit.too_few_candidates cs group_size) eqn:Hfew.
  - unfold Streamlit.form_group. simpl. rewrite Hcs. simpl. rewrite Hfew.
    rewrite fill_from_available_spec. simpl.
    eexists _, _, _. split; [done|]. split.
    + simpl. rewrite length_take. lia.
    + rewrite <- app_comm_cons. by rewrite take_drop.
  - destruct (form_group_candidate_branch _ _ _ _ _ r Hcs Hfew)
      as (chosen & available' & r' & -> & Hl & _ & Hp).
    exists (person1 :: chosen), available', r'. split; [done|]. split.
    + simpl. lia.
    + simpl. by rewrite Hp.
Qed.

(** The loop ends, within as many iterations as there are participants,
    with groups of exactly [group_size] members and fewer than [group_size]
    participants left over. *)
Lemma while_available_spec (fuel : nat) (past_pairings : pairings)
    (group_size : Z) (available : list string) (groups : list (list string))
    (r : Random.state) :
  (1 <= group_size)%Z -> length available <= fuel ->
  exists rest groups' r',
    Streamlit.while_available fuel past_pairings group_size available groups r =
      Ok (rest, groups ++ groups', r') /\
    (Z.of_nat (length rest) < group_size)%Z /\
    Forall (fun group => length group = Z.to_nat group_size) groups' /\
    available ≡ₚ concat groups' ++ rest.
Proof.
  intros Hg. revert available groups r.
  induction fuel as [|fuel IH]; intros available groups r Hfuel;
    cbn [Streamlit.while_available]; case_bool_decide as Hc.
  - lia.
  - exists available, [], r. rewrite app_nil_r. repeat split; [lia|done..].
  - destruct (form_group_spec past_pairings group_size available r)
      as (group & available' & r' & -> & Hl & Hp); [lia..|]. simpl.
    apply Permutation_length in Hp as Hlen. rewrite length_app in Hlen.
    destruct (IH available' (groups ++ [group]) r')
      as (rest & groups' & r'' & -> & Hrest & HF & Hp'); [lia|].
    exists rest, (group :: groups'), r''. rewrite <- app_assoc.
    split; [done|]. split; [done|]. split; [by constructor|].
    simpl. by rewrite Hp, Hp', app_assoc.
  - exists available, [], r. rewrite app_nil_r. repeat split; [lia|done..].
Qed.

Lemma while_available_more_fuel (fuel fuel' : nat) (past_pairings : pairings)
    (group_size : Z) (available : list string) (groups : list (list string))
    (r : Random.state) (res : list string * list (list string) * Random.state) :
  Streamlit.while_available fuel past_pairings group_size available groups r =
    Ok res ->
  fuel <= fuel' ->
  Streamlit.while_available fuel' past_pairings group_size available groups r =
    Ok res.
Proof.
  revert fuel' available groups r.
  induction fuel as [|fuel IH]; intros fuel' available groups r;
    cbn [Streamlit.while_available].
  - case_bool_decide; [done|]. intros E _. destruct fuel'; simpl;
      by rewrite bool_decide_eq_false_2.
  - case_bool_decide as Hc.
    + intros E Hle. destruct fuel' as [|fuel']; [lia|].
      cbn [Streamlit.while_available]. rewrite bool_decide_eq_true_2 by done.
      destruct (Streamlit.form_group past_pairings group_size available r)
        as [[[group available'] r']| |]; simpl in *; try done.
      apply IH; [done|lia].
    + intros E _. destruct fuel'; cbn [Streamlit.while_available];
        by rewrite bool_decide_eq_false_2.
Qed.

(** The shape of the result of [create_groups_intelligently]: the groups of
    the loop, all of [group_size] members, and the remainder handling
    applied to the fewer than [group_size] participants left over. *)
Lemma create_groups_spec (fuel : nat) (df : DataFrame) (past_pairings : pairings)
    (group_size : Z) (r : Random.state) :
  (1 <= group_size)%Z -> length (Name df) <= fuel ->
  exists rest groups,
    Streamlit.create_groups_intelligently fuel df past_pairings group_size r =
      Ok (Streamlit.handle_remainders rest groups) /\
    (Z.of_nat (length rest) < group_size)%Z /\
    Forall (fun group => length group = Z.to_nat group_size) groups /\
    Name df ≡ₚ concat groups ++ rest.
Proof.
  intros Hg Hfuel. unfold Streamlit.create_groups_intelligently.
  destruct (Random.shuffle (Name df) r) as [participants r1] eqn:Esh.
  assert (participants ≡ₚ Name df) as Hperm.
  { pose proof (shuffle_Permutation (Name df) r) as H. by rewrite Esh in H. }
  destruct (while_available_spec fuel past_pairings group_size participants [] r1)
    as (rest & groups & r2 & -> & Hrest & HF & Hp); [done|..].
  { by rewrite (Permutation_length Hperm). }
  simpl. exists rest, groups. repeat split; try done. by rewrite <- Hperm.
Qed.

Lemma fill_from_candidates_length (n : nat)
    (group cs available group' available' : list string) :
  Streamlit.fill_from_candidates n group cs available = Ok (group', available') ->
  length available' <= length available.
Proof.
  revert group cs available.
  induction n as [|n IH]; intros group cs available; simpl.
  - by intros [= _ ->].
  - destruct cs as [|p cs]; simpl; [apply IH|].
    destruct (Py.remove p available) as [l| |] eqn:E; simpl; try done.
    apply remove_length in E. intros H%IH. lia.
Qed.

(** Every iteration of the loop that returns has removed at least one
    participant from the pool, whatever the group size. *)
Lemma form_group_shrinks (past_pairings : pairings) (group_size : Z)
    (available : list string) (r : Random.state)
    (group available' : list string) (r' : Random.state) :
  Streamlit.form_group past_pairings group_size available r =
    Ok (group, available', r') ->
  length available' < length available.
Proof.
  destruct available as [|person1 rest]; [done|].
  unfold Streamlit.form_group. simpl.
  destruct (candidates_for_spec past_pairings person1 rest) as (cs & -> & _).
  simpl. destruct (Streamlit.too_few_candidates cs group_size).
  - rewrite fill_from_available_spec. simpl. intros [= _ <- _].
    rewrite length_drop. lia.
  - destruct (Random.shuffle cs r) as [cs' r1].
    destruct (Streamlit.fill_from_candidates _ _ _ _) as [[g a]| |] eqn:E;
      simpl; try done.
    apply fill_from_candidates_length in E. intros [= _ <- _]. lia.
Qed.

Lemma create_groups_more_fuel (fuel fuel' : nat) (df : DataFrame)
    (past_pairings : pairings) (group_size : Z) (r : Random.state)
    (groups : list (list string)) :
  Streamlit.create_groups_intelligently fuel df past_pairings group_size r =
    Ok groups ->
  fuel <= fuel' ->
  Streamlit.create_groups_intelligently fuel' df past_pairings group_size r =
    Ok groups.
Proof.
  unfold Streamlit.create_groups_intelligently.
  destruct (Random.shuffle (Name df) r) as [participants r1].
  destruct (Streamlit.while_available fuel _ _ _ _ _) as [res| |] eqn:E;
    simpl; try done.
  intros H Hle. by rewrite (while_available_more_fuel _ fuel' _ _ _ _ _ _ E Hle).
Qed.

(** C9. For every name list (the empty one included) and every group size
    of at least 1, [create_groups_intelligently] returns a list of groups
    and raises no exception: there is one result that every loop budget of
    at least the number of participants yields. The loop ends because each
    iteration that returns leaves strictly fewer participants in the
    pool. *)
Theorem partitioner_terminates_without_error (df : DataFrame)
    (past_pairings : pairings) (group_size : Z) (r : Random.state) :
  (1 <= group_size)%Z ->
  (exists groups, forall fuel,
     length (Name df) <= fuel ->
     Streamlit.create_groups_intelligently fuel df past_pairings group_size r =
       Ok groups) /\
  (forall available r0 group available' r',
     Streamlit.form_group past_pairings group_size available r0 =
       Ok (group, available', r') ->
     length available' < length available).
Proof.
  intros Hg. split.
  - destruct (create_groups_spec (length (Name df)) df past_pairings group_size r)
      as (rest & groups & E & _); [done..|].
    exists (Streamlit.handle_remainders rest groups). intros fuel Hfuel.
    by apply (create_groups_more_fuel (length (Name df))).
  - intros available r0 group available' r'. apply form_group_shrinks.
Qed.

Lemma partitioner_terminates_without_error_witness :
  (exists groups, forall fuel,
     length (Name mock_df) <= fuel ->
     Streamlit.create_groups_intelligently fuel mock_df ∅ 3 [3; 9; 2; 1] =
       Ok groups) /\
  (forall available r0 group available' r',
     Streamlit.form_group ∅ 3 available r0 = Ok (group, available', r') ->
     length available' < length available).
Proof. apply (partitioner_terminates_without_error mock_df ∅ 3 [3; 9; 2; 1]). lia. Defined.

Lemma concat_length_uniform (n : nat) (groups : list (list string)) :
  Forall (fun group => length group = n) groups ->
  length (concat groups) = n * length groups.
Proof.
  induction 1 as [|group groups Hl _ IH]; simpl; [lia|].
  rewrite length_app, IH, Hl. lia.
Qed.

(** The loop of a roster of [n] names leaves [n mod group_size] names over
    and forms [n / group_size] groups. *)
Lemma create_groups_counts (fuel : nat) (df : DataFrame)
    (past_pairings : pairings) (group_size : Z) (r : Random.state) :
  (1 <= group_size)%Z -> length (Name df) <= fuel ->
  exists rest groups,
    Streamlit.create_groups_intelligently fuel df past_pairings group_size r =
      Ok (Streamlit.handle_remainders rest groups) /\
    Forall (fun group => length group = Z.to_nat group_size) groups /\
    Name df ≡ₚ concat groups ++ rest /\
    length groups = length (Name df) / Z.to_nat group_size /\
    length rest = length (Name df) mod Z.to_nat group_size.
Proof.
  intros Hg Hfuel.
  destruct (create_groups_spec fuel df past_pairings group_size r Hg Hfuel)
    as (rest & groups & E & Hrest & HF & Hp).
  exists rest, groups. repeat split; try done.
  - apply Permutation_length in Hp. rewrite length_app in Hp.
    rewrite (concat_length_uniform _ _ HF) in Hp.
    apply (Nat.div_unique _ _ _ (length rest)); lia.
  - apply Permutation_length in Hp. rewrite length_app in Hp.
    rewrite (concat_length_uniform _ _ HF) in Hp.
    apply (Nat.mod_unique _ _ (length groups)); lia.
Qed.

Lemma handle_remainders_concat (rest : list string)
    (groups : list (list string)) :
  length rest <= 2 ->
  concat (Streamlit.handle_remainders rest groups) ≡ₚ concat groups ++ rest.
Proof.
  intros Hlen. destruct rest as [|x [|y [|z rest]]]; simpl in *; try lia.
  - by rewrite app_nil_r.
  - destruct groups as [|first others]; simpl; [done|].
    rewrite <- !app_assoc. apply Permutation_app_head, Permutation_app_comm.
  - by rewrite concat_app.
Qed.

(** For a group size of 1, 2 or 3 the groups hold every name of the roster
    exactly once. *)
Lemma partition_covers_up_to_three (fuel : nat) (df : DataFrame)
    (past_pairings : pairings) (group_size : Z) (r : Random.state) :
  (1 <= group_size <= 3)%Z -> length (Name df) <= fuel ->
  exists groups,
    Streamlit.create_groups_intelligently fuel df past_pairings group_size r =
      Ok groups /\
    concat groups ≡ₚ Name df.
Proof.
  intros Hg Hfuel.
  destruct (create_groups_spec fuel df past_pairings group_size r)
    as (rest & groups & E & Hrest & _ & Hp); [lia|done|].
  eexists. split; [done|]. rewrite handle_remainders_concat by lia. done.
Qed.

(** C1 (the code departs from it). When three or more names are left over
    after the loop, which happens for group sizes from 4 on, the remainder
    handling emits none of them: the groups returned hold fewer names than
    the roster. *)
Theorem large_remainder_is_dropped (fuel : nat) (df : DataFrame)
    (past_pairings : pairings) (group_size : Z) (r : Random.state) :
  (1 <= group_size)%Z -> length (Name df) <= fuel ->
  3 <= length (Name df) mod Z.to_nat group_size ->
  exists groups,
    Streamlit.create_groups_intelligently fuel df past_pairings group_size r =
      Ok groups /\
    length (concat groups) + length (Name df) mod Z.to_nat group_size =
      length (Name df) /\
    ~ concat groups ≡ₚ Name df.
Proof.
  intros Hg Hfuel Hmod.
  destruct (create_groups_counts fuel df past_pairings group_size r Hg Hfuel)
    as (rest & groups & E & HF & Hp & _ & Hrest).
  assert (Streamlit.handle_remainders rest groups = groups) as Hh.
  { destruct rest as [|x [|y [|z rest]]]; simpl in *; try lia. done. }
  rewrite Hh in E. exists groups. split; [done|].
  apply Permutation_length in Hp. rewrite length_app in Hp. split; [lia|].
  intros Hc%Permutation_length. lia.
Qed.

Lemma large_remainder_is_dropped_witness :
  exists groups,
    Streamlit.create_groups_intelligently 7
      (roster ["a"; "b"; "c"; "d"; "e"; "f"; "g"]) ∅ 4 [] = Ok groups /\
    length (concat groups) + 3 = 7 /\
    ~ concat groups ≡ₚ ["a"; "b"; "c"; "d"; "e"; "f"; "g"].
Proof.
  apply (large_remainder_is_dropped 7
           (roster ["a"; "b"; "c"; "d"; "e"; "f"; "g"]) ∅ 4 []);
    [lia | simpl; lia | simpl; lia].
Defined.

Lemma create_groups_below_size (fuel : nat) (df : DataFrame)
    (past_pairings : pairings) (group_size : Z) (r : Random.state) :
  (Z.of_nat (length (Name df)) < group_size)%Z ->
  Streamlit.create_groups_intelligently fuel df past_pairings group_size r =
  Ok (Streamlit.handle_remainders (Random.shuffle (Name df) r).1 []).
Proof.
  intros Hlen. unfold Streamlit.create_groups_intelligently.
  pose proof (shuffle_Permutation (Name df) r) as Hp%Permutation_length.
  destruct (Random.shuffle (Name df) r) as [participants r1]. simpl in *.
  destruct fuel; cbn [Streamlit.while_available];
    by rewrite bool_decide_eq_false_2 by lia.
Qed.

(** A roster of one or two names, smaller than the group size, gives one
    group with everyone; the empty roster gives no group. *)
Lemma small_roster_one_group (fuel : nat) (df : DataFrame)
    (past_pairings : pairings) (group_size : Z) (r : Random.state) :
  (Z.of_nat (length (Name df)) < group_size)%Z ->
  (length (Name df) = 0 ->
   Streamlit.create_groups_intelligently fuel df past_pairings group_size r =
     Ok []) /\
  (1 <= length (Name df) <= 2 ->
   exists group,
     Streamlit.create_groups_intelligently fuel df past_pairings group_size r =
       Ok [group] /\ group ≡ₚ Name df).
Proof.
  intros Hlen. rewrite create_groups_below_size by done.
  pose proof (shuffle_Permutation (Name df) r) as Hp.
  apply Permutation_length in Hp as Hl.
  destruct ((Random.shuffle (Name df) r).1) as [|x [|y [|z l]]];
    simpl in *; split; intros ?; try lia; try done; by eexists.
Qed.

(** C2 (the code departs from it). A roster of three or more names that is
    smaller than the group size gives no group at all, instead of one group
    with everyone. *)
Theorem small_roster_is_dropped (fuel : nat) (df : DataFrame)
    (past_pairings : pairings) (group_size : Z) (r : Random.state) :
  3 <= length (Name df) ->
  (Z.of_nat (length (Name df)) < group_size)%Z ->
  Streamlit.create_groups_intelligently fuel df past_pairings group_size r =
    Ok [].
Proof.
  intros H3 Hlen. rewrite create_groups_below_size by done.
  pose proof (shuffle_Permutation (Name df) r) as Hl%Permutation_length.
  by destruct ((Random.shuffle (Name df) r).1) as [|x [|y [|z l]]];
    simpl in *; try lia.
Qed.

Lemma small_roster_is_dropped_witness :
  Streamlit.create_groups_intelligently 3 (roster ["a"; "b"; "c"]) ∅ 4 [] =
    Ok [].
Proof.
  apply (small_roster_is_dropped 3 (roster ["a"; "b"; "c"]) ∅ 4 []);
    simpl; lia.
Defined.

(** C3. With a group size of 3, a roster of 11 names is partitioned into
    groups of sizes 3, 3, 3, 2 and a roster of 10 names into groups of sizes
    4, 3, 3, for every history and every run of the generator; a single
    name left over is appended to the first group, or forms a group of its
    own when there is no group; two names left over form a final group. *)
Theorem remainder_shapes (fuel : nat) (df : DataFrame)
    (past_pairings : pairings) (r : Random.state) :
  length (Name df) <= fuel ->
  (length (Name df) = 11 ->
   exists groups,
     Streamlit.create_groups_intelligently fuel df past_pairings 3 r = Ok groups /\
     length <$> groups = [3; 3; 3; 2] /\ concat groups ≡ₚ Name df) /\
  (length (Name df) = 10 ->
   exists groups,
     Streamlit.create_groups_intelligently fuel df past_pairings 3 r = Ok groups /\
     length <$> groups = [4; 3; 3] /\ concat groups ≡ₚ Name df) /\
  (length (Name df) = 1 ->
   Streamlit.create_groups_intelligently fuel df past_pairings 3 r =
     Ok [Name df]) /\
  (forall x first others,
     Streamlit.handle_remainders [x] (first :: others) =
     (first ++ [x]) :: others) /\
  (forall x, Streamlit.handle_remainders [x] [] = [[x]]) /\
  (forall x y groups,
     Streamlit.handle_remainders [x; y] groups = groups ++ [[x; y]]).
Proof.
  intros Hfuel.
  destruct (create_groups_counts fuel df past_pairings 3 r)
    as (rest & groups & E & HF & Hp & Hn & Hrest); [lia|done|].
  assert (concat (Streamlit.handle_remainders rest groups) ≡ₚ Name df) as Hc.
  { rewrite handle_remainders_concat; [done|].
    pose proof (Nat.mod_upper_bound (length (Name df)) (Z.to_nat 3)). lia. }
  split; [|split; [|split]].
  - intros H11. rewrite H11 in Hn, Hrest. eexists. split; [done|].
    split; [|done]. change (11 / Z.to_nat 3) with 3 in Hn.
    change (11 mod Z.to_nat 3) with 2 in Hrest.
    destruct groups as [|g1 [|g2 [|g3 [|g4 groups]]]]; try done.
    destruct rest as [|x [|y [|z rest]]]; try done.
    apply Forall_cons in HF as [H1 HF]. apply Forall_cons in HF as [H2 HF].
    apply Forall_cons in HF as [H3 _]. simpl. by rewrite H1, H2, H3.
  - intros H10. rewrite H10 in Hn, Hrest. eexists. split; [done|].
    split; [|done]. change (10 / Z.to_nat 3) with 3 in Hn.
    change (10 mod Z.to_nat 3) with 1 in Hrest.
    destruct groups as [|g1 [|g2 [|g3 [|g4 groups]]]]; try done.
    destruct rest as [|x [|y rest]]; try done.
    apply Forall_cons in HF as [H1 HF]. apply Forall_cons in HF as [H2 HF].
    apply Forall_cons in HF as [H3 _]. simpl.
    by rewrite length_app, H1, H2, H3.
  - intros H1.
    destruct (small_roster_one_group fuel df past_pairings 3 r) as [_ H];
      [lia|].
    destruct H as (group & -> & Hg); [lia|].
    destruct (Name df) as [|x [|y l]]; try done.
    by apply Permutation_singleton_r in Hg as ->.
  - done.
Qed.

Lemma remainder_shapes_witness :
  (exists groups,
     Streamlit.create_groups_intelligently 11 mock_df ben_cat 3 [3; 9; 2; 1] =
       Ok groups /\
     length <$> groups = [3; 3; 3; 2] /\ concat groups ≡ₚ Name mock_df) /\
  (exists groups,
     Streamlit.create_groups_intelligently 10
       (roster ["a"; "b"; "c"; "d"; "e"; "f"; "g"; "h"; "i"; "j"]) ∅ 3 [5; 1] =
       Ok groups /\
     length <$> groups = [4; 3; 3] /\
     concat groups ≡ₚ ["a"; "b"; "c"; "d"; "e"; "f"; "g"; "h"; "i"; "j"]) /\
  Streamlit.create_groups_intelligently 1 (roster ["a"]) ∅ 3 [] = Ok [["a"]].
Proof.
  split; [|split].
  - apply (remainder_shapes 11 mock_df ben_cat [3; 9; 2; 1]); simpl; lia.
  - apply (remainder_shapes 10
             (roster ["a"; "b"; "c"; "d"; "e"; "f"; "g"; "h"; "i"; "j"])
             ∅ [5; 1]); simpl; lia.
  - apply (remainder_shapes 1 (roster ["a"]) ∅ []); simpl; lia.
Defined.

(** C4 as stated fails: with Ben and Cat in each other's sets and Ann the
    anchor, both are candidates, the candidate branch is taken, and the
    group it completes holds Ben and Cat. *)
Lemma candidate_branch_repeat_pair :
  ~ (forall past_pairings group_size person1 rest cs r group available' r',
       Streamlit.candidates_for past_pairings person1 rest = Ok cs ->
       Streamlit.too_few_candidates cs group_size = false ->
       Streamlit.form_group past_pairings group_size (person1 :: rest) r =
         Ok (group, available', r') ->
       repeat_free past_pairings group).
Proof.
  intros H.
  apply (H ben_cat 3%Z "Ann" ["Ben"; "Cat"] ["Ben"; "Cat"] []
           ["Ann"; "Cat"; "Ben"] [] [] eq_refl eq_refl eq_refl "Ben" "Cat").
  - set_solver.
  - set_solver.
  - done.
  - split; [exists {[ "Cat" ]}|exists {[ "Ben" ]}]; split;
      try reflexivity; set_solver.
Qed.

(** C4 (amended). A group completed through the candidate branch is the
    anchor followed by [group_size - 1] of the candidates, and none of them
    is in the anchor's set; whether two of them are in each other's sets is
    not looked at. *)
Theorem candidate_branch_avoids_anchor_history (past_pairings : pairings)
    (group_size : Z) (person1 : string) (rest cs : list string)
    (r : Random.state) :
  Streamlit.candidates_for past_pairings person1 rest = Ok cs ->
  Streamlit.too_few_candidates cs group_size = false ->
  exists chosen available' r',
    Streamlit.form_group past_pairings group_size (person1 :: rest) r =
      Ok (person1 :: chosen, available', r') /\
    length chosen = Z.to_nat (group_size - 1) /\
    Forall (fun p => p ∈ rest /\ not_avoided past_pairings person1 p) chosen.
Proof.
  intros Hcs Hfew.
  destruct (form_group_candidate_branch _ _ _ _ _ r Hcs Hfew)
    as (chosen & available' & r' & E & Hl & Hsub & Hp).
  exists chosen, available', r'. split; [done|]. split; [done|].
  destruct (candidates_for_spec past_pairings person1 rest)
    as (cs0 & E0 & _ & HF & _). assert (cs0 = cs) as -> by congruence.
  apply Forall_forall. intros p Hin. split.
  - rewrite Hp. set_solver.
  - rewrite Forall_forall in HF. apply HF. by eapply elem_of_submseteq.
Qed.

Lemma candidate_branch_avoids_anchor_history_witness :
  exists chosen available' r',
    Streamlit.form_group ben_cat 3 ["Ann"; "Ben"; "Cat"] [] =
      Ok ("Ann" :: chosen, available', r') /\
    length chosen = 2 /\
    Forall (fun p => p ∈ ["Ben"; "Cat"] /\ not_avoided ben_cat "Ann" p) chosen.
Proof.
  apply (candidate_branch_avoids_anchor_history ben_cat 3 "Ann"
           ["Ben"; "Cat"] ["Ben"; "Cat"] []); reflexivity.
Defined.

End Partition.

(** ** Further properties of the partitioner *)

Section PartitionMore.

Lemma handle_remainders_submseteq (rest : list string)
    (groups : list (list string)) :
  concat (Streamlit.handle_remainders rest groups) ⊆+ concat groups ++ rest.
Proof.
  destruct (decide (length rest <= 2)) as [Hle|Hgt].
  - by rewrite handle_remainders_concat.
  - destruct rest as [|x [|y [|z rest]]]; simpl in *; try lia.
    by apply submseteq_inserts_r.
Qed.

(** X1. For every group size of at least 1 the groups only hold names of
    the roster, and no name more often than the roster has it. *)
Theorem groups_hold_only_roster_names (fuel : nat) (df : DataFrame)
    (past_pairings : pairings) (group_size : Z) (r : Random.state) :
  (1 <= group_size)%Z -> length (Name df) <= fuel ->
  exists groups,
    Streamlit.create_groups_intelligently fuel df past_pairings group_size r =
      Ok groups /\
    concat groups ⊆+ Name df.
Proof.
  intros Hg Hfuel.
  destruct (create_groups_spec fuel df past_pairings group_size r Hg Hfuel)
    as (rest & groups & E & _ & _ & Hp).
  eexists. split; [done|]. rewrite Hp. apply handle_remainders_submseteq.
Qed.

Lemma groups_hold_only_roster_names_witness :
  exists groups,
    Streamlit.create_groups_intelligently 7
      (roster ["a"; "b"; "c"; "d"; "e"; "f"; "g"]) ben_cat 4 [1; 2] = Ok groups /\
    concat groups ⊆+ ["a"; "b"; "c"; "d"; "e"; "f"; "g"].
Proof.
  apply (groups_hold_only_roster_names 7
           (roster ["a"; "b"; "c"; "d"; "e"; "f"; "g"]) ben_cat 4 [1; 2]);
    simpl; lia.
Defined.

(** X15. For a group size of 1, 2 or 3, the configured size included,
    the groups hold every name of the roster exactly once. *)
Theorem small_group_sizes_cover_roster (fuel : nat) (df : DataFrame)
    (past_pairings : pairings) (group_size : Z) (r : Random.state) :
  (1 <= group_size <= 3)%Z -> length (Name df) <= fuel ->
  exists groups,
    Streamlit.create_groups_intelligently fuel df past_pairings group_size r =
      Ok groups /\
    concat groups ≡ₚ Name df.
Proof. apply partition_covers_up_to_three. Qed.

Lemma small_group_sizes_cover_roster_witness :
  exists groups,
    Streamlit.create_groups_intelligently 11 mock_df ben_cat 3 [3; 9; 2; 1] =
      Ok groups /\
    concat groups ≡ₚ Name mock_df.
Proof.
  apply (small_group_sizes_cover_roster 11 mock_df ben_cat 3 [3; 9; 2; 1]);
    simpl; lia.
Defined.

(** X16. A roster with fewer names than the group size does not enter the
    loop: the empty roster gives no group, and a roster of one or two names
    gives one group with everyone, whatever the loop budget. *)
Theorem tiny_roster_single_group (fuel : nat) (df : DataFrame)
    (past_pairings : pairings) (group_size : Z) (r : Random.state) :
  (Z.of_nat (length (Name df)) < group_size)%Z ->
  (length (Name df) = 0 ->
   Streamlit.create_groups_intelligently fuel df past_pairings group_size r =
     Ok []) /\
  (1 <= length (Name df) <= 2 ->
   exists group,
     Streamlit.create_groups_intelligently fuel df past_pairings group_size r =
       Ok [group] /\ group ≡ₚ Name df).
Proof. apply small_roster_one_group. Qed.

Lemma tiny_roster_single_group_witness :
  Streamlit.create_groups_intelligently 0 (roster []) ben_cat 3 [7] = Ok [] /\
  exists group,
    Streamlit.create_groups_intelligently 0 (roster ["a"; "b"]) ∅ 3 [7] =
      Ok [group] /\ group ≡ₚ ["a"; "b"].
Proof.
  split.
  - destruct (tiny_roster_single_group 0 (roster []) ben_cat 3 [7]) as [H _];
      [simpl; lia|].
    by apply H.
  - destruct (tiny_roster_single_group 0 (roster ["a"; "b"]) ∅ 3 [7])
      as [_ H]; [simpl; lia|].
    apply H. simpl. lia.
Defined.

(** X17. For every group size of at least 1 the result is the remainder
    handling applied to [n / group_size] groups of exactly [group_size]
    members and [n mod group_size] names left over, which together make up
    the roster of [n] names. *)
Theorem full_groups_and_leftover (fuel : nat) (df : DataFrame)
    (past_pairings : pairings) (group_size : Z) (r : Random.state) :
  (1 <= group_size)%Z -> length (Name df) <= fuel ->
  exists rest groups,
    Streamlit.create_groups_intelligently fuel df past_pairings group_size r =
      Ok (Streamlit.handle_remainders rest groups) /\
    Forall (fun group => length group = Z.to_nat group_size) groups /\
    Name df ≡ₚ concat groups ++ rest /\
    length groups = length (Name df) / Z.to_nat group_size /\
    length rest = length (Name df) mod Z.to_nat group_size.
Proof. apply create_groups_counts. Qed.

Lemma full_groups_and_leftover_witness :
  exists rest groups,
    Streamlit.create_groups_intelligently 7
      (roster ["a"; "b"; "c"; "d"; "e"; "f"; "g"]) ben_cat 4 [1; 2] =
      Ok (Streamlit.handle_remainders rest groups) /\
    Forall (fun group => length group = 4) groups /\
    ["a"; "b"; "c"; "d"; "e"; "f"; "g"] ≡ₚ concat groups ++ rest /\
    length groups = 1 /\
    length rest = 3.
Proof.
  apply (full_groups_and_leftover 7
           (roster ["a"; "b"; "c"; "d"; "e"; "f"; "g"]) ben_cat 4 [1; 2]);
    simpl; lia.
Defined.

(** An iteration with a group size of at most 1 emits the anchor alone. *)
Lemma form_group_single (past_pairings : pairings) (group_size : Z)
    (person1 : string) (rest : list string) (r : Random.state) :
  (group_size <= 1)%Z ->
  exists r',
    Streamlit.form_group past_pairings group_size (person1 :: rest) r =
    Ok ([person1], rest, r').
Proof.
  intros Hg. unfold Streamlit.form_group. simpl.
  destruct (candidates_for_spec past_pairings person1 rest) as (cs & -> & _).
  simpl. unfold Streamlit.too_few_candidates.
  rewrite bool_decide_eq_false_2 by lia.
  destruct (Random.shuffle cs r) as [cs' r'].
  replace (Z.to_nat (group_size - 1)) with 0 by lia. simpl. by exists r'.
Qed.

Lemma while_available_nonpositive (past_pairings : pairings) (group_size : Z)
    (available : list string) (groups : list (list string)) (r : Random.state)
    (fuel : nat) :
  (group_size <= 0)%Z -> length available < fuel ->
  Streamlit.while_available fuel past_pairings group_size available groups r =
  Raise IndexError.
Proof.
  intros Hg. revert groups r fuel.
  induction available as [|p rest IH]; intros groups r fuel Hfuel;
    (destruct fuel as [|fuel]; [simpl in *; lia|]);
    cbn [Streamlit.while_available];
    rewrite bool_decide_eq_true_2 by (simpl; lia).
  - done.
  - destruct (form_group_single past_pairings group_size p rest r) as [r' ->];
      [lia|].
    simpl. apply IH. simpl in *. lia.
Qed.

(** X2. With a group size of 0 or less the loop never stops by itself: it
    empties the pool one participant at a time and then pops from the empty
    list, so the call raises [IndexError] on every roster. *)
Theorem nonpositive_group_size_raises (fuel : nat) (df : DataFrame)
    (past_pairings : pairings) (group_size : Z) (r : Random.state) :
  (group_size <= 0)%Z -> length (Name df) < fuel ->
  Streamlit.create_groups_intelligently fuel df past_pairings group_size r =
  Raise IndexError.
Proof.
  intros Hg Hfuel. unfold Streamlit.create_groups_intelligently.
  pose proof (shuffle_Permutation (Name df) r) as Hp%Permutation_length.
  destruct (Random.shuffle (Name df) r) as [participants r1]. simpl in Hp.
  rewrite while_available_nonpositive; [done..|lia].
Qed.

Lemma nonpositive_group_size_raises_witness :
  Streamlit.create_groups_intelligently 4 (roster ["a"; "b"; "c"]) ∅ 0 [5] =
  Raise IndexError.
Proof.
  apply (nonpositive_group_size_raises 4 (roster ["a"; "b"; "c"]) ∅ 0 [5]);
    simpl; lia.
Defined.

Lemma while_available_one (past_pairings : pairings) (available : list string)
    (groups : list (list string)) (r : Random.state) (fuel : nat) :
  length available <= fuel ->
  exists r',
    Streamlit.while_available fuel past_pairings 1 available groups r =
    Ok ([], groups ++ ((fun p => [p]) <$> available), r').
Proof.
  revert groups r fuel.
  induction available as [|p rest IH]; intros groups r fuel Hfuel.
  - exists r. rewrite app_nil_r. by destruct fuel.
  - destruct fuel as [|fuel]; [simpl in *; lia|].
    cbn [Streamlit.while_available].
    rewrite bool_decide_eq_true_2 by (simpl; lia).
    destruct (form_group_single past_pairings 1 p rest r) as [r1 ->]; [lia|].
    simpl. destruct (IH (groups ++ [[p]]) r1 fuel) as [r' ->];
      [simpl in *; lia|].
    exists r'. by rewrite <- app_assoc.
Qed.

(** X3. With a group size of 1 every participant is a group of their own,
    in the order of the initial shuffle. *)
Theorem group_size_one_singletons (fuel : nat) (df : DataFrame)
    (past_pairings : pairings) (r : Random.state) :
  length (Name df) <= fuel ->
  Streamlit.create_groups_intelligently fuel df past_pairings 1 r =
  Ok ((fun p => [p]) <$> (Random.shuffle (Name df) r).1).
Proof.
  intros Hfuel. unfold Streamlit.create_groups_intelligently.
  pose proof (shuffle_Permutation (Name df) r) as Hp%Permutation_length.
  destruct (Random.shuffle (Name df) r) as [participants r1]. simpl in *.
  destruct (while_available_one past_pairings participants [] r1 fuel)
    as [r' ->]; [lia|]. done.
Qed.

Lemma group_size_one_singletons_witness :
  Streamlit.create_groups_intelligently 3 (roster ["a"; "b"; "c"]) ben_cat 1 [] =
  Ok [["b"]; ["c"]; ["a"]].
Proof.
  apply (group_size_one_singletons 3 (roster ["a"; "b"; "c"]) ben_cat []).
  simpl. lia.
Defined.

(** X4. With the configured group size of 3 and at least two names nobody
    is left alone: every group has 2, 3 or 4 members. *)
Theorem groups_of_three_sizes (fuel : nat) (df : DataFrame)
    (past_pairings : pairings) (r : Random.state) :
  length (Name df) <= fuel -> 2 <= length (Name df) ->
  exists groups,
    Streamlit.create_groups_intelligently fuel df past_pairings
      Streamlit.GROUP_SIZE r = Ok groups /\
    Forall (fun group => 2 <= length group <= 4) groups.
Proof.
  intros Hfuel H2.
  destruct (create_groups_counts fuel df past_pairings 3 r)
    as (rest & groups & E & HF & Hp & Hn & Hrest); [lia|done|].
  exists (Streamlit.handle_remainders rest groups). split; [done|].
  change (Z.to_nat 3) with 3 in *.
  assert (Forall (fun group : list string => 2 <= length group <= 4) groups)
    as HF'.
  { eapply Forall_impl; [exact HF|]. simpl. lia. }
  pose proof (Nat.mod_upper_bound (length (Name df)) 3) as Hub.
  pose proof (Nat.div_mod_eq (length (Name df)) 3) as Hdm.
  destruct rest as [|x [|y [|z rest]]]; simpl in Hrest; try lia.
  - done.
  - destruct groups as [|first others]; [simpl in *; lia|].
    simpl. apply Forall_cons in HF as [H1 _].
    apply Forall_cons in HF' as [_ HF']. constructor; [|done].
    rewrite length_app. simpl. lia.
  - simpl. apply Forall_app. split; [done|]. constructor; [simpl; lia|done].
Qed.

Lemma groups_of_three_sizes_witness :
  exists groups,
    Streamlit.create_groups_intelligently 11 mock_df ben_cat
      Streamlit.GROUP_SIZE [3; 9; 2; 1] = Ok groups /\
    Forall (fun group => 2 <= length group <= 4) groups.
Proof.
  apply (groups_of_three_sizes 11 mock_df ben_cat [3; 9; 2; 1]); simpl; lia.
Defined.

(** X5. When the anchor has fewer than [group_size - 1] candidates, the
    iteration fills the group with the next participants of the pool in pool
    order, whatever the history says about them, and draws nothing from the
    generator. *)
Theorem fallback_takes_pool_order (past_pairings : pairings) (group_size : Z)
    (person1 : string) (rest cs : list string) (r : Random.state) :
  Streamlit.candidates_for past_pairings person1 rest = Ok cs ->
  Streamlit.too_few_candidates cs group_size = true ->
  Streamlit.form_group past_pairings group_size (person1 :: rest) r =
  Ok (person1 :: take (Z.to_nat (group_size - 1)) rest,
      drop (Z.to_nat (group_size - 1)) rest, r).
Proof.
  intros Hcs Hfew. unfold Streamlit.form_group. simpl. rewrite Hcs. simpl.
  rewrite Hfew. by rewrite fill_from_available_spec.
Qed.

Lemma fallback_takes_pool_order_witness :
  Streamlit.form_group ben_cat 3 ["Ben"; "Cat"; "Ann"] [4; 4] =
  Ok (["Ben"; "Cat"; "Ann"], [], [4; 4]).
Proof.
  apply (fallback_takes_pool_order ben_cat 3 "Ben" ["Cat"; "Ann"]
           ["Ann"] [4; 4]); reflexivity.
Defined.

End PartitionMore.

(** ** Further properties of the history extraction *)

Section ExtractionMore.

Lemma rows_share_names (k : string) (labels : list cell) (names : list string)
    (a b : string) :
  rows_share k labels names a b -> a ∈ names /\ b ∈ names.
Proof.
  intros (r1 & r2 & _ & _ & _ & H1 & H2).
  split; by eapply list_elem_of_lookup_2.
Qed.

Lemma rows_share_NoDup (k : string) (labels : list cell) (names : list string)
    (a b : string) :
  NoDup names -> rows_share k labels names a b -> a <> b.
Proof.
  intros Hnd (r1 & r2 & Hne & _ & _ & H1 & H2) ->.
  apply Hne. by eapply NoDup_lookup.
Qed.


(** X7. When the names of the roster are unique, nobody is in their own
    set. *)
Theorem nobody_paired_with_self (df : DataFrame) :
  NoDup (Name df) ->
  exists m,
    Streamlit.get_past_pairings df = Ok (m, df) /\
    forall a b, paired m a b -> a <> b.
Proof.
  intros Hnd. destruct (get_past_pairings_spec df) as (m & E & _ & Hp).
  exists m. split; [done|].
  intros a b (col & n & labels & k & _ & _ & Hs)%Hp.
  by eapply rows_share_NoDup.
Qed.

Lemma nobody_paired_with_self_witness :
  exists m,
    Streamlit.get_past_pairings mock_df = Ok (m, mock_df) /\
    forall a b, paired m a b -> a <> b.
Proof.
  apply (nobody_paired_with_self mock_df).
  refine (bool_decide_unpack _ _). vm_compute. exact I.
Defined.

Lemma column_lookup_assign (c col : string) (values : list cell)
    (cols : list (string * list cell)) :
  column_lookup c (assign_column col values cols) =
  if decide (c = col) then Some values else column_lookup c cols.
Proof.
  induction cols as [|[c0 v0] cols IH]; simpl.
  - destruct (decide (c = col)) as [->|Hne]; [by rewrite String.eqb_refl|].
    by rewrite (proj2 (String.eqb_neq col c)).
  - destruct (String.eqb c0 col) eqn:E0.
    + apply String.eqb_eq in E0 as ->. simpl.
      destruct (decide (c = col)) as [->|Hne]; [by rewrite String.eqb_refl|].
      by rewrite (proj2 (String.eqb_neq col c)).
    + apply String.eqb_neq in E0. simpl.
      destruct (String.eqb c0 c) eqn:E1.
      * apply String.eqb_eq in E1 as ->. by rewrite decide_False.
      * done.
Qed.

Lemma column_lookup_None (col : string) (cols : list (string * list cell)) :
  col ∉ cols.*1 -> column_lookup col cols = None.
Proof.
  intros Hn. destruct (column_lookup col cols) eqn:E; [|done].
  by apply column_lookup_Some in E.
Qed.

(** The shared rounds of a table after [df[col] = values] with a new
    column name: those of the table before, and those of the new column
    when its name makes it a round column. *)
Lemma shared_round_set_column (col : string) (values : list cell)
    (df : DataFrame) (a b : string) :
  col ∉ columns df ->
  shared_round (set_column col values df) a b <->
  shared_round df a b \/
  ((exists n, round_column col n) /\
   exists k, rows_share k values (Name df) a b).
Proof.
  intros Hfresh. assert (column_lookup col (other_columns df) = None) as Hn.
  { apply column_lookup_None. intros ?. apply Hfresh. by right. }
  unfold shared_round, set_column. simpl. split.
  - intros (c & n & labels & k & Hr & Hl & Hs).
    rewrite column_lookup_assign in Hl.
    destruct (decide (c = col)) as [->|Hne].
    + right. assert (labels = values) as -> by congruence. eauto.
    + left. by exists c, n, labels, k.
  - intros [(c & n & labels & k & Hr & Hl & Hs)|[[n Hr] [k Hs]]].
    + exists c, n, labels, k. repeat split; try done.
      rewrite column_lookup_assign. rewrite decide_False; [done|].
      intros ->. congruence.
    + exists col, n, values, k. repeat split; try done.
      rewrite column_lookup_assign. by rewrite decide_True.
Qed.

(** X8. Recording one more column under a new name never removes a
    pairing: the mapping of the longer table holds every pair of the
    shorter one. *)
Theorem pairings_grow_with_history (col : string) (values : list cell)
    (df : DataFrame) :
  col ∉ columns df ->
  exists m m',
    Streamlit.get_past_pairings df = Ok (m, df) /\
    Streamlit.get_past_pairings (set_column col values df) =
      Ok (m', set_column col values df) /\
    forall a b, paired m a b -> paired m' a b.
Proof.
  intros Hfresh.
  destruct (get_past_pairings_spec df) as (m & E & _ & Hp).
  destruct (get_past_pairings_spec (set_column col values df))
    as (m' & E' & _ & Hp').
  exists m, m'. repeat split; try done.
  intros a b Hab%Hp. apply Hp'. apply shared_round_set_column; [done|].
  by left.
Qed.

Lemma pairings_grow_with_history_witness :
  exists m m',
    Streamlit.get_past_pairings once_df = Ok (m, once_df) /\
    Streamlit.get_past_pairings
      (set_column "Group_2" [Some "x"; Some "y"; Some "y"] once_df) =
      Ok (m', set_column "Group_2" [Some "x"; Some "y"; Some "y"] once_df) /\
    forall a b, paired m a b -> paired m' a b.
Proof.
  apply (pairings_grow_with_history "Group_2" [Some "x"; Some "y"; Some "y"]
           once_df).
  refine (bool_decide_unpack _ _). vm_compute. exact I.
Defined.


End ExtractionMore.

(** ** Recording a round *)

Section Recording.

Lemma assign_column_fresh (col : string) (values : list cell)
    (cols : list (string * list cell)) :
  col ∉ cols.*1 -> assign_column col values cols = cols ++ [(col, values)].
Proof.
  induction cols as [|[c v] cols IH]; simpl; [done|]. intros Hn.
  apply not_elem_of_cons in Hn as [Hne Hn].
  rewrite (proj2 (String.eqb_neq c col)) by done. by rewrite IH.
Qed.

Lemma columns_set_column_fresh (col : string) (values : list cell)
    (df : DataFrame) :
  col ∉ columns df ->
  columns (set_column col values df) = columns df ++ [col].
Proof.
  intros Hn. unfold columns, set_column in *. simpl.
  apply not_elem_of_cons in Hn as [_ Hn].
  rewrite assign_column_fresh by done. by rewrite map_app.
Qed.

Lemma str_inj (n m : N) : Py.str n = Py.str m -> n = m.
Proof.
  intros H. pose proof (int_str n) as Hn. rewrite H, int_str in Hn. congruence.
Qed.

(** The label is [Group_n] for a number [n] above every round of the
    table, and no column of the table has that name. *)
Lemma next_name_number (df : DataFrame) :
  exists n,
    Streamlit.get_next_group_column_name df = Ok ("Group_" +:+ Py.str n) /\
    (forall k, has_round df k -> (k < n)%N) /\
    ("Group_" +:+ Py.str n) ∉ columns df.
Proof.
  assert (exists n,
    Streamlit.get_next_group_column_name df = Ok ("Group_" +:+ Py.str n) /\
    (forall k, has_round df k -> (k < n)%N)) as (n & E & Hlt).
  { destruct (next_name_spec df) as [[Hno ->]|(m & [_ Hle] & ->)].
    - exists 1%N. split; [done|]. intros k Hk. by destruct (Hno k).
    - exists (m + 1)%N. split; [done|]. intros k Hk%Hle. lia. }
  exists n. repeat split; try done.
  intros Hin. assert (has_round df n) as Hn%Hlt; [|lia].
  exists ("Group_" +:+ Py.str n). split; [done|].
  exists (Py.str n). split; [done|]. apply int_str.
Qed.

Lemma round_column_str (n k : N) :
  round_column ("Group_" +:+ Py.str n) k <-> k = n.
Proof.
  split.
  - intros (suffix & E & Hk). apply (inj (String.append "Group_")) in E as <-.
    rewrite int_str in Hk. congruence.
  - intros ->. exists (Py.str n). split; [done|]. apply int_str.
Qed.

Lemma next_name_after_set_column (df : DataFrame) (values : list cell) (n : N) :
  Streamlit.get_next_group_column_name df = Ok ("Group_" +:+ Py.str n) ->
  Streamlit.get_next_group_column_name
    (set_column ("Group_" +:+ Py.str n) values df) =
  Ok ("Group_" +:+ Py.str (n + 1)).
Proof.
  intros En. destruct (next_name_number df) as (n' & E & Hlt & Hfresh).
  assert (n' = n) as ->.
  { assert ("Group_" +:+ Py.str n' = "Group_" +:+ Py.str n) as En'
      by congruence.
    apply (inj (String.append "Group_")) in En'. by apply str_inj. }
  apply next_name_max.
  unfold max_round, has_round. rewrite columns_set_column_fresh by done.
  split.
  - exists ("Group_" +:+ Py.str n). split; [set_solver|].
    by apply round_column_str.
  - intros k (col & [Hin| ->%list_elem_of_singleton]%elem_of_app & Hr).
    + assert (k < n)%N; [|lia]. apply Hlt. by exists col.
    + apply round_column_str in Hr. lia.
Qed.


Lemma label_members_lookup (group : list string) (label : string)
    (d : gmap string string) (p : string) :
  Streamlit.label_members group label d !! p =
  if decide (p ∈ group) then Some label else d !! p.
Proof.
  revert d. induction group as [|q group IH]; intros d;
    cbn [Streamlit.label_members].
  - destruct (decide (p ∈ [])) as [Hin|_]; [by apply elem_of_nil in Hin|done].
  - rewrite IH. destruct (decide (p ∈ group)) as [Hin|Hnin].
    + by rewrite decide_True by set_solver.
    + destruct (decide (p = q)) as [->|Hne].
      * rewrite lookup_insert_eq. by rewrite decide_True by set_solver.
      * rewrite lookup_insert_ne by done. by rewrite decide_False by set_solver.
Qed.

Lemma label_groups_notin (groups : list (list string)) (c : N)
    (d : gmap string string) (p : string) :
  p ∉ concat groups -> Streamlit.label_groups groups c d !! p = d !! p.
Proof.
  revert c d. induction groups as [|group groups IH]; intros c d; simpl;
    [done|].
  intros [Hg Hrest]%not_elem_of_app. rewrite IH by done.
  rewrite label_members_lookup. by rewrite decide_False.
Qed.

(** A name of some group is labelled with the number of the last group
    that holds it. *)
Lemma label_groups_in (groups : list (list string)) (c : N)
    (d : gmap string string) (p : string) :
  p ∈ concat groups ->
  exists i group,
    groups !! i = Some group /\ p ∈ group /\
    Streamlit.label_groups groups c d !! p =
    Some ("Group " +:+ Py.str (c + N.of_nat i)).
Proof.
  revert c d. induction groups as [|group groups IH]; intros c d; simpl;
    [by intros ?%elem_of_nil|].
  intros Hin. destruct (decide (p ∈ concat groups)) as [Hrest|Hrest].
  - destruct (IH (c + 1)%N (Streamlit.label_members group
                 ("Group " +:+ Py.str c) d) Hrest) as (i & g & Hi & Hp & E).
    exists (S i), g. repeat split; try done. rewrite E. do 3 f_equal. lia.
  - apply elem_of_app in Hin as [Hin|?]; [|done].
    exists 0, group. repeat split; try done.
    rewrite label_groups_notin by done. rewrite label_members_lookup.
    rewrite decide_True by done. do 3 f_equal. lia.
Qed.

Lemma elem_of_concat_groups (groups : list (list string)) (p : string) :
  p ∈ concat groups <-> exists group, group ∈ groups /\ p ∈ group.
Proof.
  induction groups as [|g groups IH]; simpl.
  - split; [by intros ?%elem_of_nil|by intros (? & ?%elem_of_nil & _)].
  - rewrite elem_of_app, IH. split.
    + intros [?|(h & ? & ?)]; [exists g|exists h]; split; try done;
        [left|by right].
    + intros (h & [->|?]%elem_of_cons & ?); [by left|right; by exists h].
Qed.

Lemma NoDup_concat_index (groups : list (list string)) (i j : nat)
    (g g' : list string) (p : string) :
  NoDup (concat groups) ->
  groups !! i = Some g -> groups !! j = Some g' -> p ∈ g -> p ∈ g' -> i = j.
Proof.
  revert i j. induction groups as [|g0 groups IH]; intros i j Hnd Hi Hj Hp Hp';
    [done|].
  simpl in Hnd. apply NoDup_app in Hnd as (_ & Hdisj & Hnd).
  assert (forall k h, groups !! k = Some h -> p ∈ h -> p ∈ concat groups) as Hc.
  { intros k h Hk Hh. apply elem_of_concat_groups. exists h.
    split; [by eapply list_elem_of_lookup_2|done]. }
  destruct i as [|i], j as [|j]; simpl in *; simplify_eq; try done.
  - destruct (Hdisj p Hp). by eapply Hc.
  - destruct (Hdisj p Hp'). by eapply Hc.
  - f_equal. by eapply IH.
Qed.

(** In a partition without repeated names two names carry the same label
    exactly when they are in the same group. *)
Lemma label_groups_same (groups : list (list string)) (a b : string) :
  NoDup (concat groups) -> a ∈ concat groups -> b ∈ concat groups ->
  (exists k, Streamlit.label_groups groups 1 ∅ !! a = Some k /\
             Streamlit.label_groups groups 1 ∅ !! b = Some k) <->
  exists group, group ∈ groups /\ a ∈ group /\ b ∈ group.
Proof.
  intros Hnd Ha Hb.
  destruct (label_groups_in groups 1 ∅ a Ha) as (i & g & Hi & Hag & Ea).
  destruct (label_groups_in groups 1 ∅ b Hb) as (j & g' & Hj & Hbg & Eb).
  rewrite Ea, Eb. split.
  - intros (k & Hka & Hkb).
    assert ("Group " +:+ Py.str (1 + N.of_nat i) =
            "Group " +:+ Py.str (1 + N.of_nat j)) as E by congruence.
    apply (inj (String.append "Group ")) in E. apply str_inj in E.
    assert (j = i) as -> by lia. assert (g' = g) as -> by congruence.
    exists g. split; [by eapply list_elem_of_lookup_2|done].
  - intros (h & [k Hk]%list_elem_of_lookup & Hah & Hbh).
    assert (i = k) as -> by by eapply (NoDup_concat_index groups _ _ g h a).
    assert (j = k) as -> by by eapply (NoDup_concat_index groups _ _ g' h b).
    by eexists.
Qed.

Lemma rows_share_map_names (d : gmap string string) (names : list string)
    (k a b : string) :
  NoDup names ->
  rows_share k (map (fun name => d !! name) names) names a b <->
  a <> b /\ a ∈ names /\ b ∈ names /\ d !! a = Some k /\ d !! b = Some k.
Proof.
  intros Hnd. split.
  - intros (r1 & r2 & Hne & H1 & H2 & Ha & Hb).
    change (map (fun name => d !! name) names) with
      ((fun name => d !! name) <$> names) in H1, H2.
    rewrite list_lookup_fmap, Ha in H1. rewrite list_lookup_fmap, Hb in H2.
    simpl in *. repeat split; try congruence.
    + intros ->. apply Hne. by eapply NoDup_lookup.
    + by eapply list_elem_of_lookup_2.
    + by eapply list_elem_of_lookup_2.
  - intros (Hne & [r1 Ha]%list_elem_of_lookup & [r2 Hb]%list_elem_of_lookup
            & Hda & Hdb).
    exists r1, r2. repeat split; try done.
    + intros ->. congruence.
    + change (map (fun name => d !! name) names) with
        ((fun name => d !! name) <$> names).
      rewrite list_lookup_fmap, Ha. simpl. by rewrite Hda.
    + change (map (fun name => d !! name) names) with
        ((fun name => d !! name) <$> names).
      rewrite list_lookup_fmap, Hb. simpl. by rewrite Hdb.
Qed.

(** The handler of cr_streamlit.py step by step, for a table with a
    [Branch] column. *)
Lemma generate_groups_spec (fuel : nat) (df : DataFrame) (r : Random.state)
    (branch : list cell) :
  column_lookup "Branch" (other_columns df) = Some branch ->
  length (Name df) <= fuel ->
  exists m groups n,
    Streamlit.get_past_pairings df = Ok (m, df) /\
    Streamlit.create_groups_intelligently fuel
      (mkDataFrame (Name df) [("Branch", branch)]) m Streamlit.GROUP_SIZE r =
      Ok groups /\
    concat groups ≡ₚ Name df /\
    Streamlit.get_next_group_column_name df = Ok ("Group_" +:+ Py.str n) /\
    (("Group_" +:+ Py.str n) ∉ columns df) /\
    Streamlit.generate_groups fuel df r =
      Ok (set_column ("Group_" +:+ Py.str n)
            (map_names (Streamlit.label_groups groups 1 ∅) df) df,
          "Group_" +:+ Py.str n).
Proof.
  intros Hb Hfuel.
  destruct (get_past_pairings_spec df) as (m & Em & _).
  destruct (partition_covers_up_to_three fuel
              (mkDataFrame (Name df) [("Branch", branch)]) m 3 r)
    as (groups & Eg & Hp); [lia|done|].
  destruct (next_name_number df) as (n & En & _ & Hfresh).
  exists m, groups, n. repeat split; try done.
  unfold Streamlit.generate_groups, select_name_branch, column_values.
  rewrite Hb. simpl. rewrite Em. simpl.
  unfold Streamlit.GROUP_SIZE. rewrite Eg. simpl. by rewrite En.
Qed.







End Recording.

(** ** The callbacks of dash_app.py *)

Section DashCallbacks.

Lemma dash_same_labels : Dash.label_groups = Streamlit.label_groups.
Proof. reflexivity. Qed.



(** X14. The file name that [download_csv] of dash_app.py computes from
    the table that [generate_groups] stored does not name the round column
    that was just added but the one after it: the helper is called again on
    the table that already holds the new column. The name is built as the
    download button of cr_streamlit.py builds it. *)
Theorem dash_download_names_next_round (fuel : nat) (n_clicks n_clicks' : Z)
    (df df' : DataFrame) (r : Random.state) :
  Dash.generate_groups fuel n_clicks (Some df) r = Ok (Some df') ->
  (n_clicks' > 0)%Z ->
  exists n,
    columns df' = columns df ++ ["Group_" +:+ Py.str n] /\
    Dash.download_csv n_clicks' (Some df') =
    Ok (Some (Streamlit.download_file_name ("Group_" +:+ Py.str (n + 1)))).
Proof.
  intros Hgen Hn'. unfold Dash.generate_groups in Hgen.
  destruct (bool_decide (n_clicks > 0)%Z); [|done].
  destruct (select_name_branch df) as [participants_df| |]; simpl in Hgen;
    [|done..].
  destruct (dash_get_past_pairings_spec df) as [[_ Ed]|[_ [p Ed]]];
    rewrite Ed in Hgen; simpl in Hgen; [|done].
  destruct (Dash.create_groups_intelligently _ _ _ _ _) as [groups| |];
    simpl in Hgen; [|done..].
  rewrite dash_same_labeling in Hgen.
  destruct (next_name_number df) as (n & En & _ & Hfresh).
  rewrite En in Hgen. simpl in Hgen. injection Hgen as <-.
  exists n. split; [by apply columns_set_column_fresh|].
  unfold Dash.download_csv. rewrite bool_decide_eq_true_2 by done.
  rewrite dash_same_labeling.
  by rewrite (next_name_after_set_column df _ n En).
Qed.

Lemma dash_download_names_next_round_witness :
  exists n,
    columns (set_column "Group_1" [Some "Group 1"; Some "Group 1"; Some "Group 1"]
               (mkDataFrame ["Ann"; "Ben"; "Cat"]
                  [("Branch", [Some "HR"; Some "IT"; None])])) =
    columns (mkDataFrame ["Ann"; "Ben"; "Cat"]
               [("Branch", [Some "HR"; Some "IT"; None])]) ++
    ["Group_" +:+ Py.str n] /\
    Dash.download_csv 1
      (Some (set_column "Group_1"
               [Some "Group 1"; Some "Group 1"; Some "Group 1"]
               (mkDataFrame ["Ann"; "Ben"; "Cat"]
                  [("Branch", [Some "HR"; Some "IT"; None])]))) =
    Ok (Some (Streamlit.download_file_name ("Group_" +:+ Py.str (n + 1)))).
Proof.
  apply (dash_download_names_next_round 3 1 1
           (mkDataFrame ["Ann"; "Ben"; "Cat"]
              [("Branch", [Some "HR"; Some "IT"; None])]) _ []);
    [reflexivity|lia].
Defined.

End DashCallbacks.
